(** * YouTube Audio Normalizer: the content script, embedded and verified

    The content script keeps its state in module-level variables and talks to
    the browser (Web Audio nodes, storage, timers).  The embedding threads the
    variables through every function as one [State] record; the browser side
    (live connections, elements that already own a tap, identities handed out,
    the calls made on nodes and storage) is the [World] carried inside it.

    Numbers are JavaScript doubles in the source.  They are idealised here as
    real numbers: [+], [-], [*], [/], [Math.sqrt], [Math.log10], [Math.pow],
    [Math.max] and [Math.min] are the exact operations, without rounding, NaN
    or infinities (the one infinity the script writes, the initial meter
    reading, has a constructor of its own). *)

From Stdlib Require Import Reals Lra Lia List String Bool Arith.
Import ListNotations.
Open Scope string_scope.
Open Scope list_scope.
Open Scope R_scope.

(* ------------------------------------------------------------------ *)
(** ** Helpers *)

Definition log10 (x : R) : R := ln x / ln 10.

(** [const dBtoLinear = (dB) => Math.pow(10, dB / 20)] *)
Definition dBtoLinear (dB : R) : R := Rpower 10 (dB / 20).

(** [lin || 1e-10]: a number is falsy exactly when it is zero (NaN is not
    a real number). *)
Definition or_floor (lin : R) : R :=
  if Req_dec_T lin 0 then 1e-10 else lin.

(** [const linearToDB = (lin) => 20 * Math.log10(lin || 1e-10)] *)
Definition linearToDB (lin : R) : R := 20 * log10 (or_floor lin).

(** [function calcRMS(buffer)]: the loop accumulates the squares from the
    left, starting at 0. *)
Definition calcRMS (buffer : list R) : R :=
  let sum := fold_left (fun acc x => acc + x * x) buffer 0 in
  sqrt (sum / INR (List.length buffer)).

(* ------------------------------------------------------------------ *)
(** ** Settings, partial objects and presets *)

(** The settings object of the script. *)
Record Settings := mkSettings {
  enabled : bool;
  preset : string;
  autoGain : bool;
  targetLevel : R;
  threshold : R;
  ratio : R;
  knee : R;
  attack : R;
  release : R;
  makeupGain : R;
  preGain : R;
  limiterThreshold : R
}.

(** An object that carries some of the settings keys: the [settings] payload
    of an [updateSettings] message, a preset of the table, or the literal
    [{ preset, enabled }] of [applyPreset].  A key is either absent
    ([None]) or present with its value. *)
Module Obj.
Record t := mk {
  enabled : option bool;
  preset : option string;
  autoGain : option bool;
  targetLevel : option R;
  threshold : option R;
  ratio : option R;
  knee : option R;
  attack : option R;
  release : option R;
  makeupGain : option R;
  preGain : option R;
  limiterThreshold : option R
}.

(** An object without enumerable own keys. *)
Definition empty : t :=
  mk None None None None None None None None None None None None.
End Obj.

Definition or_old {A} (new : option A) (old : A) : A :=
  match new with Some v => v | None => old end.

(** [Object.assign(target, src)]: every key present in [src] overwrites the
    key of [target]; the others stay. *)
Definition assign (target : Settings) (src : Obj.t) : Settings :=
  {| enabled := or_old (Obj.enabled src) (enabled target);
     preset := or_old (Obj.preset src) (preset target);
     autoGain := or_old (Obj.autoGain src) (autoGain target);
     targetLevel := or_old (Obj.targetLevel src) (targetLevel target);
     threshold := or_old (Obj.threshold src) (threshold target);
     ratio := or_old (Obj.ratio src) (ratio target);
     knee := or_old (Obj.knee src) (knee target);
     attack := or_old (Obj.attack src) (attack target);
     release := or_old (Obj.release src) (release target);
     makeupGain := or_old (Obj.makeupGain src) (makeupGain target);
     preGain := or_old (Obj.preGain src) (preGain target);
     limiterThreshold :=
       or_old (Obj.limiterThreshold src) (limiterThreshold target) |}.

(** One row of [PRESETS]: the eight keys a preset object has. *)
Definition preset_row (th ra kn at_ re mk ta : R) : Obj.t :=
  {| Obj.enabled := None; Obj.preset := None;
     Obj.autoGain := Some true; Obj.targetLevel := Some ta;
     Obj.threshold := Some th; Obj.ratio := Some ra; Obj.knee := Some kn;
     Obj.attack := Some at_; Obj.release := Some re;
     Obj.makeupGain := Some mk;
     Obj.preGain := None; Obj.limiterThreshold := None |}.

Definition PRESET_light : Obj.t := preset_row (-18) 2 20 10 300 2 (-16).
Definition PRESET_medium : Obj.t := preset_row (-24) 4 10 3 250 6 (-14).
Definition PRESET_heavy : Obj.t := preset_row (-35) 10 5 1 150 12 (-11).

(** The property names every object literal inherits from
    [Object.prototype].  They are functions (or, for [__proto__], the
    prototype object itself): truthy values without enumerable own keys. *)
Definition inherited_names : list string :=
  [ "constructor"; "hasOwnProperty"; "isPrototypeOf";
    "propertyIsEnumerable"; "toLocaleString"; "toString"; "valueOf";
    "__proto__"; "__defineGetter__"; "__defineSetter__";
    "__lookupGetter__"; "__lookupSetter__" ].

(** [PRESETS[name]]: the property read on the object literal [PRESETS].
    [None] is [undefined]; every [Some] is truthy.  An inherited property
    reads as an object that contributes no key to [Object.assign]. *)
Definition PRESETS (name : string) : option Obj.t :=
  if name =? "light" then Some PRESET_light
  else if name =? "medium" then Some PRESET_medium
  else if name =? "heavy" then Some PRESET_heavy
  else if existsb (String.eqb name) inherited_names then Some Obj.empty
  else None.

Definition DEFAULT_SETTINGS : Settings :=
  {| enabled := true; preset := "medium"; autoGain := true;
     targetLevel := -14; threshold := -24; ratio := 4; knee := 10;
     attack := 3; release := 250; makeupGain := 6; preGain := 0;
     limiterThreshold := -1 |}.

(* ------------------------------------------------------------------ *)
(** ** The browser side *)

Definition Video := nat.     (* identity of a <video> element *)
Definition NodeId := nat.    (* identity of an AudioNode *)
Definition TimerId := nat.

Inductive CtxState := running | suspended | closed.

(** An [AudioContext]: its [state] and its [destination] node. *)
Record AudioContext := mkCtx {
  ctxState : CtxState;
  destination : NodeId
}.

Inductive Param := PThreshold | PRatio | PKnee | PAttack | PRelease | PGain.

(** The calls the script makes on the browser, in the order made. *)
Inductive Call :=
| SetValue (n : NodeId) (p : Param) (v : R)      (* param.value = v *)
| SetTargetAtTime (n : NodeId) (p : Param) (target startTime timeConstant : R)
| SetFftSize (n : NodeId) (size : nat)
| StorageSet (s : Settings)                      (* chrome.storage.sync.set *)
| CreateSource (v : Video) (ok : bool)           (* createMediaElementSource *)
| Resume                                         (* audioCtx.resume() *)
| SetInterval (id : TimerId)
| ClearInterval (id : TimerId)
| AddCanplayListener (v : Video).

Record World := mkWorld {
  tapped : list Video;               (* elements that own a source node *)
  edges : list (NodeId * NodeId);    (* live connections *)
  fresh : nat;                       (* next identity handed out *)
  calls : list Call                  (* newest last *)
}.

(** The stage set: the object stored in the variable [nodes]. *)
Module N.
Record set := mk {
  source : NodeId;
  inputAnalyser : NodeId;
  preGain : NodeId;
  autoGain : NodeId;
  compressor : NodeId;
  makeupGain : NodeId;
  limiter : NodeId;
  outputAnalyser : NodeId
}.

(** [Object.values(nodes)] *)
Definition values (n : set) : list NodeId :=
  [ source n; inputAnalyser n; preGain n; autoGain n; compressor n;
    makeupGain n; limiter n; outputAnalyser n ].
End N.

(** A meter reading: [-Infinity] before the first tick, a number after. *)
Inductive Level := NegInfinity | dB (r : R).

Record Levels := mkLevels {
  inputRMS : Level;
  outputRMS : Level;
  reduction : R
}.

(* ------------------------------------------------------------------ *)
(** ** The state of the content script *)

Record State := mkState {
  settings : Settings;
  audioCtx : option AudioContext;     (* [null] is [None] *)
  nodes : option N.set;               (* [{}] is [None] *)
  currentVideo : option Video;
  metering : option TimerId;
  autoGainValue : R;
  levels : Levels;
  rmsHistory : list R;                (* oldest first *)
  world : World
}.

Definition RMS_HISTORY_LEN : nat := 20.

Definition initial : State :=
  {| settings := DEFAULT_SETTINGS; audioCtx := None; nodes := None;
     currentVideo := None; metering := None; autoGainValue := 0;
     levels := mkLevels NegInfinity NegInfinity 0; rmsHistory := [];
     world := mkWorld [] [] 0 [] |}.

Definition with_settings (s : Settings) (st : State) : State :=
  mkState s (audioCtx st) (nodes st) (currentVideo st) (metering st)
          (autoGainValue st) (levels st) (rmsHistory st) (world st).
Definition with_audioCtx (c : option AudioContext) (st : State) : State :=
  mkState (settings st) c (nodes st) (currentVideo st) (metering st)
          (autoGainValue st) (levels st) (rmsHistory st) (world st).
Definition with_nodes (n : option N.set) (st : State) : State :=
  mkState (settings st) (audioCtx st) n (currentVideo st) (metering st)
          (autoGainValue st) (levels st) (rmsHistory st) (world st).
Definition with_currentVideo (v : option Video) (st : State) : State :=
  mkState (settings st) (audioCtx st) (nodes st) v (metering st)
          (autoGainValue st) (levels st) (rmsHistory st) (world st).
Definition with_metering (m : option TimerId) (st : State) : State :=
  mkState (settings st) (audioCtx st) (nodes st) (currentVideo st) m
          (autoGainValue st) (levels st) (rmsHistory st) (world st).
Definition with_autoGainValue (g : R) (st : State) : State :=
  mkState (settings st) (audioCtx st) (nodes st) (currentVideo st)
          (metering st) g (levels st) (rmsHistory st) (world st).
Definition with_levels (l : Levels) (st : State) : State :=
  mkState (settings st) (audioCtx st) (nodes st) (currentVideo st)
          (metering st) (autoGainValue st) l (rmsHistory st) (world st).
Definition with_rmsHistory (h : list R) (st : State) : State :=
  mkState (settings st) (audioCtx st) (nodes st) (currentVideo st)
          (metering st) (autoGainValue st) (levels st) h (world st).
Definition with_world (w : World) (st : State) : State :=
  mkState (settings st) (audioCtx st) (nodes st) (currentVideo st)
          (metering st) (autoGainValue st) (levels st) (rmsHistory st) w.

(** Browser primitives on the world. *)
Definition call (c : Call) (st : State) : State :=
  let w := world st in
  with_world (mkWorld (tapped w) (edges w) (fresh w) (calls w ++ [c])) st.

Definition edge_eqb (a b : NodeId * NodeId) : bool :=
  Nat.eqb (fst a) (fst b) && Nat.eqb (snd a) (snd b).

(** [a.connect(b)]: connecting a pair that is connected changes nothing. *)
Definition connect (a b : NodeId) (st : State) : State :=
  let w := world st in
  if existsb (edge_eqb (a, b)) (edges w) then st
  else with_world (mkWorld (tapped w) (edges w ++ [(a, b)]) (fresh w)
                           (calls w)) st.

(** [n.disconnect()]: every outgoing connection of [n] goes. *)
Definition disconnect (n : NodeId) (st : State) : State :=
  let w := world st in
  with_world (mkWorld (tapped w)
                      (filter (fun e => negb (Nat.eqb (fst e) n)) (edges w))
                      (fresh w) (calls w)) st.

(** A fresh identity (for [createGain], [createAnalyser], timers, ...). *)
Definition alloc (st : State) : nat * State :=
  let w := world st in
  (fresh w,
   with_world (mkWorld (tapped w) (edges w) (S (fresh w)) (calls w)) st).

(** [audioCtx.createMediaElementSource(video)]: an element can be tapped
    once; a second tap throws.  [None] is the exception. *)
Definition createMediaElementSource (w : World) (video : Video)
  : option (NodeId * World) :=
  if existsb (Nat.eqb video) (tapped w) then None
  else Some (fresh w,
             mkWorld (video :: tapped w) (edges w) (S (fresh w)) (calls w)).

(* ------------------------------------------------------------------ *)
(** ** Exceptions

    A statement either completes or throws (a [TypeError] on a property
    read of [undefined] or [null]); the state reached so far is kept in
    both cases. *)

Inductive Outcome := Done (st : State) | Thrown (st : State).

Definition andThen (o : Outcome) (k : State -> Outcome) : Outcome :=
  match o with Done st => k st | Thrown st => Thrown st end.

Notation "'do' st <- o ;; k" := (andThen o (fun st => k))
  (at level 10, st name, o at level 100, k at level 200).

(** [try { ... } catch (e) { console.error(...) }] *)
Definition caught (o : Outcome) : State :=
  match o with Done st => st | Thrown st => st end.

(* ------------------------------------------------------------------ *)
(** ** Load / save settings *)

(** [async function loadSettings()]: [stored] is what the store holds
    under [normalizerSettings] ([None] when nothing is stored). *)
Definition loadSettings (stored : option Obj.t) (st : State) : State :=
  match stored with
  | Some o => with_settings (assign DEFAULT_SETTINGS o) st
  | None => st
  end.

(** [function saveSettings()] *)
Definition saveSettings (st : State) : State :=
  call (StorageSet (settings st)) st.

(* ------------------------------------------------------------------ *)
(** ** Connection helpers *)

(** [function disconnectAll()]: over the values of the current [nodes]. *)
Definition disconnectAll (st : State) : State :=
  match nodes st with
  | None => st
  | Some n => fold_left (fun s x => disconnect x s) (N.values n) st
  end.

(** [function connectProcessing()].  With [nodes = {}] the destructured
    [source] is [undefined] and [source.connect] throws; with
    [audioCtx = null] the read of [audioCtx.destination] throws. *)
Definition connectProcessing (st : State) : Outcome :=
  let st := disconnectAll st in
  match nodes st with
  | None => Thrown st
  | Some n =>
      let st := connect (N.source n) (N.inputAnalyser n) st in
      let st := connect (N.inputAnalyser n) (N.preGain n) st in
      let st := connect (N.preGain n) (N.autoGain n) st in
      let st := connect (N.autoGain n) (N.compressor n) st in
      let st := connect (N.compressor n) (N.makeupGain n) st in
      let st := connect (N.makeupGain n) (N.limiter n) st in
      let st := connect (N.limiter n) (N.outputAnalyser n) st in
      match audioCtx st with
      | None => Thrown st
      | Some c => Done (connect (N.outputAnalyser n) (destination c) st)
      end
  end.

(** [function connectBypass()] *)
Definition connectBypass (st : State) : Outcome :=
  let st := disconnectAll st in
  match nodes st, audioCtx st with
  | Some n, Some c => Done (connect (N.source n) (destination c) st)
  | _, _ => Thrown st
  end.

(* ------------------------------------------------------------------ *)
(** ** Apply current settings to audio nodes *)

(** [function applySettingsToNodes()]; [now] is [audioCtx.currentTime]. *)
Definition applySettingsToNodes (now : R) (st : State) : Outcome :=
  match nodes st with
  | None => Done st
  | Some n =>
      let s := settings st in
      let c := N.compressor n in
      let st := call (SetValue c PThreshold (threshold s)) st in
      let st := call (SetValue c PRatio (ratio s)) st in
      let st := call (SetValue c PKnee (knee s)) st in
      let st := call (SetValue c PAttack (attack s / 1000)) st in
      let st := call (SetValue c PRelease (release s / 1000)) st in
      let st := call (SetValue (N.makeupGain n) PGain
                               (dBtoLinear (makeupGain s))) st in
      let st := call (SetValue (N.preGain n) PGain
                               (dBtoLinear (preGain s))) st in
      let st := call (SetValue (N.limiter n) PThreshold
                               (limiterThreshold s)) st in
      if autoGain s then Done st
      else
        let st := with_autoGainValue 0 st in
        match audioCtx st with
        | None => Thrown st
        | Some _ =>
            Done (call (SetTargetAtTime (N.autoGain n) PGain 1 now 0.05) st)
        end
  end.

(* ------------------------------------------------------------------ *)
(** ** Metering + auto-gain loop *)

(** [function startMetering()], up to the registration of the interval
    callback; the callback itself is [tick].  Interval ids are positive in
    a browser, so a stored id is truthy in [if (metering)]. *)
Definition startMetering (st : State) : State :=
  let st := match metering st with
            | Some id => call (ClearInterval id) st
            | None => st
            end in
  let st := with_rmsHistory [] st in
  let st := with_autoGainValue 0 st in
  let (id, st) := alloc st in
  call (SetInterval id) (with_metering (Some id) st).

(** [rmsHistory.push(x); if (rmsHistory.length > RMS_HISTORY_LEN)
    rmsHistory.shift();] *)
Definition push_history (x : R) (h : list R) : list R :=
  let h := h ++ [x] in
  if Nat.ltb RMS_HISTORY_LEN (List.length h) then tl h else h.

(** [rmsHistory.reduce((a, b) => a + b, 0) / rmsHistory.length] *)
Definition average (h : list R) : R :=
  fold_left (fun a b => a + b) h 0 / INR (List.length h).

(** The interval callback.  [inBuf] and [outBuf] are the blocks the two
    analysers write into the fresh [Float32Array]s, [red] is
    [nodes.compressor.reduction], [now] is [audioCtx.currentTime]. *)
Definition tick (now : R) (inBuf outBuf : list R) (red : R) (st : State)
  : State :=
  match audioCtx st, nodes st with
  | Some _, Some n =>
      let inRMS := calcRMS inBuf in
      let inDB := linearToDB inRMS in
      let outRMS := calcRMS outBuf in
      let st := with_levels (mkLevels (dB inDB) (dB (linearToDB outRMS)) red)
                            st in
      let s := settings st in
      if enabled s then
        if autoGain s then
          if Rlt_dec 0.0005 inRMS then
            let h := push_history inDB (rmsHistory st) in
            let avgDB := average h in
            let desired := targetLevel s - avgDB in
            let g := autoGainValue st + (desired - autoGainValue st) * 0.08 in
            let g := Rmax (-24) (Rmin 24 g) in
            call (SetTargetAtTime (N.autoGain n) PGain (dBtoLinear g) now 0.3)
                 (with_autoGainValue g (with_rmsHistory h st))
          else st
        else st
      else st
  | _, _ => st
  end.

(* ------------------------------------------------------------------ *)
(** ** Build the audio graph *)

(** [new AudioContext()]; [boot] is the state the browser starts it in.
    The constructor and the [create*] factories of a live context are taken
    to succeed; [console] output is not recorded. *)
Definition newAudioContext (boot : CtxState) (st : State) : State :=
  let (d, st) := alloc st in
  with_audioCtx (Some (mkCtx boot d)) st.

Definition same_video (cur : option Video) (video : Video) : bool :=
  match cur with Some v => Nat.eqb v video | None => false end.

Definition is_some {A} (o : option A) : bool :=
  match o with Some _ => true | None => false end.

(** [if (!audioCtx || audioCtx.state === 'closed') audioCtx = new
    AudioContext();] *)
Definition ensureContext (boot : CtxState) (st : State) : State :=
  match audioCtx st with
  | None => newAudioContext boot st
  | Some c => match ctxState c with
              | closed => newAudioContext boot st
              | _ => st
              end
  end.

(** The block "create nodes" of [buildGraph]: seven nodes are created, the
    analysers sized, the limiter configured, and the stage set stored in
    [nodes]. *)
Definition createStages (source : NodeId) (st : State) : State :=
  let (inputAnalyser, st) := alloc st in
  let (preGain, st) := alloc st in
  let (autoGain, st) := alloc st in
  let (compressor, st) := alloc st in
  let (makeupGain, st) := alloc st in
  let (limiter, st) := alloc st in
  let (outputAnalyser, st) := alloc st in
  let st := call (SetFftSize inputAnalyser 2048) st in
  let st := call (SetFftSize outputAnalyser 2048) st in
  let st := call (SetValue limiter PThreshold (-1)) st in
  let st := call (SetValue limiter PRatio 20) st in
  let st := call (SetValue limiter PKnee 0) st in
  let st := call (SetValue limiter PAttack 0.001) st in
  let st := call (SetValue limiter PRelease 0.01) st in
  with_nodes (Some (N.mk source inputAnalyser preGain autoGain
                         compressor makeupGain limiter outputAnalyser)) st.

(** The rest of [buildGraph]: settings onto the nodes, routing, resume,
    metering. *)
Definition activate (now : R) (st : State) : Outcome :=
  do st <- applySettingsToNodes now st ;;
  do st <- (if enabled (settings st) then connectProcessing st
            else connectBypass st) ;;
  let st := match audioCtx st with
            | Some c => match ctxState c with
                        | suspended => call Resume st
                        | _ => st
                        end
            | None => st
            end in
  Done (startMetering st).

(** [function buildGraph(video)].  The inner [try] turns a failing
    [createMediaElementSource] into a warning and a [return]; the outer one
    catches whatever the rest throws. *)
Definition buildGraph (now : R) (boot : CtxState) (video : Video)
                      (st : State) : State :=
  if same_video (currentVideo st) video && is_some (audioCtx st) then st
  else
    let st := with_currentVideo (Some video) st in
    let st := ensureContext boot st in
    match createMediaElementSource (world st) video with
    | None => call (CreateSource video false) st
    | Some (source, w) =>
        let st := call (CreateSource video true) (with_world w st) in
        caught (activate now (createStages source st))
    end.

(** [function tryAttach()]; [found] is what [findVideo()] returns and
    [readyState] the element's [readyState]. *)
Definition tryAttach (now : R) (boot : CtxState) (found : option Video)
                     (readyState : nat) (st : State) : State :=
  match found with
  | None => st
  | Some video =>
      if same_video (currentVideo st) video then st
      else if Nat.leb 2 readyState then buildGraph now boot video st
      else call (AddCanplayListener video) st
  end.

(* ------------------------------------------------------------------ *)
(** ** Message handling *)

Inductive Msg :=
| GetState
| UpdateSettings (incoming : Obj.t)
| ApplyPreset (name : string)
| ResetSettings
| OtherMsg.

Inductive Response :=
| Snapshot (s : Settings) (l : Levels) (autoGainValue : R)
           (isActive : bool) (contextState : option CtxState)
| Success (s : Settings)
| Error.

Definition set_preset (p : string) (s : Settings) : Settings :=
  mkSettings (enabled s) p (autoGain s) (targetLevel s) (threshold s)
             (ratio s) (knee s) (attack s) (release s) (makeupGain s)
             (preGain s) (limiterThreshold s).

(** [incoming.preset && incoming.preset !== 'custom' &&
    PRESETS[incoming.preset]]: the preset object when truthy. *)
Definition selected_preset (incoming : Obj.t) : option Obj.t :=
  match Obj.preset incoming with
  | None => None
  | Some p =>
      if p =? "" then None
      else if p =? "custom" then None
      else PRESETS p
  end.

(** [incoming.preset !== settings.preset] *)
Definition preset_differs (incoming : Obj.t) (s : Settings) : bool :=
  match Obj.preset incoming with
  | None => true
  | Some p => negb (p =? preset s)
  end.

(** The settings after the [if]/[else] of [case 'updateSettings']. *)
Definition mergeSettings (incoming : Obj.t) (s : Settings) : Settings :=
  match selected_preset incoming with
  | Some row => assign (assign s incoming) row
  | None =>
      let s := assign s incoming in
      if preset_differs incoming s then set_preset "custom" s else s
  end.

(** The object literal [{ preset: msg.preset, enabled: true }]. *)
Definition preset_choice (name : string) : Obj.t :=
  {| Obj.enabled := Some true; Obj.preset := Some name;
     Obj.autoGain := None; Obj.targetLevel := None;
     Obj.threshold := None; Obj.ratio := None; Obj.knee := None;
     Obj.attack := None; Obj.release := None; Obj.makeupGain := None;
     Obj.preGain := None; Obj.limiterThreshold := None |}.

(** A handler that ran to its [sendResponse] answers; one that threw
    before does not. *)
Definition answer (o : Outcome) : State * option Response :=
  match o with
  | Done st => (st, Some (Success (settings st)))
  | Thrown st => (st, None)
  end.

(** The listener registered with [chrome.runtime.onMessage]. *)
Definition onMessage (now : R) (msg : Msg) (st : State)
  : State * option Response :=
  match msg with
  | GetState =>
      (st, Some (Snapshot (settings st) (levels st) (autoGainValue st)
                          (is_some (audioCtx st) && is_some (nodes st))
                          (option_map ctxState (audioCtx st))))
  | UpdateSettings incoming =>
      let st := with_settings (mergeSettings incoming (settings st)) st in
      let st := saveSettings st in
      answer
        (do st <- applySettingsToNodes now st ;;
         match Obj.enabled incoming with
         | None => Done st
         | Some true => connectProcessing st
         | Some false => connectBypass st
         end)
  | ApplyPreset name =>
      match PRESETS name with
      | Some p =>
          let st := with_settings
                      (assign (assign (settings st) p) (preset_choice name))
                      st in
          let st := saveSettings st in
          answer (do st <- applySettingsToNodes now st ;;
                  connectProcessing st)
      | None => (st, Some (Success (settings st)))
      end
  | ResetSettings =>
      let st := with_settings DEFAULT_SETTINGS st in
      let st := saveSettings st in
      answer (do st <- applySettingsToNodes now st ;;
              if enabled (settings st) then connectProcessing st
              else connectBypass st)
  | OtherMsg => (st, Some Error)
  end.

(* ------------------------------------------------------------------ *)
(** ** Runs *)

(** What can happen to the script after it has started: a message arrives,
    the metering interval fires, [tryAttach] runs (navigation event,
    mutation observer or poll), or a [canplay] listener fires. *)
Inductive Event :=
| Message (now : R) (msg : Msg)
| Tick (now : R) (inBuf outBuf : list R) (red : R)
| Attach (now : R) (boot : CtxState) (found : option Video) (readyState : nat)
| Canplay (now : R) (boot : CtxState) (video : Video).

Definition step (e : Event) (st : State) : State :=
  match e with
  | Message now msg => fst (onMessage now msg st)
  | Tick now inBuf outBuf red =>
      if is_some (metering st) then tick now inBuf outBuf red st else st
  | Attach now boot found readyState => tryAttach now boot found readyState st
  | Canplay now boot video => buildGraph now boot video st
  end.

Definition run (es : list Event) (st : State) : State :=
  fold_left (fun s e => step e s) es st.

(** [n] consecutive metering ticks; tick [i] reads the blocks [inBuf i] and
    [outBuf i], the reduction [red i] and the clock [now i]. *)
Fixpoint ticks (n : nat) (now : nat -> R) (inBuf outBuf : nat -> list R)
               (red : nat -> R) (st : State) : State :=
  match n with
  | O => st
  | S k => tick (now k) (inBuf k) (outBuf k) (red k)
                (ticks k now inBuf outBuf red st)
  end.

(** A block as an analyser hands it out ([fftSize = 2048] samples), here
    with every sample at the same amplitude. *)
Definition block (x : R) : list R := repeat x 2048.

(** The Level Meter as the tick uses it:
    [levels.inputRMS = linearToDB(calcRMS(inBuf))]. *)
Definition meter (buffer : list R) : R := linearToDB (calcRMS buffer).

(** The three names of the preset table. *)
Definition named (p : string) : Prop :=
  p = "light" \/ p = "medium" \/ p = "heavy".

(* ------------------------------------------------------------------ *)
(** ** The specification's wording, for comparison with the code *)

Module Spec.

(** Root-mean-square of a block: square root of the mean of the
    squares. *)
Fixpoint sum_squares (b : list R) : R :=
  match b with
  | [] => 0
  | x :: r => x * x + sum_squares r
  end.

Definition rms (b : list R) : R := sqrt (sum_squares b / INR (List.length b)).

(** [20·log10(max(rms, ε))] with [ε = 1e-10]. *)
Definition levelMeter (b : list R) : R := 20 * log10 (Rmax (rms b) 1e-10).

(** Push onto the rolling window, dropping the oldest element when the
    length exceeds the capacity. *)
Definition push (capacity : nat) (x : R) (w : list R) : list R :=
  match w ++ [x] with
  | [] => []
  | oldest :: rest =>
      if Nat.leb (List.length (oldest :: rest)) capacity
      then oldest :: rest else rest
  end.

Fixpoint sum (w : list R) : R :=
  match w with
  | [] => 0
  | x :: r => x + sum r
  end.

(** Arithmetic mean of the window. *)
Definition mean (w : list R) : R := sum w / INR (List.length w).

(** Clamp to [[lo, hi]]. *)
Definition clamp (lo hi x : R) : R :=
  if Rlt_dec x lo then lo else if Rlt_dec hi x then hi else x.

(** One controller tick on (window, autoGainValue): steps 1 to 5 of the
    algorithm, for the input loudness [loudness] in dB. *)
Definition agc (targetLevel loudness : R) (w : list R) (g : R)
  : list R * R :=
  let w' := push 20 loudness w in
  let desired := targetLevel - mean w' in
  let g' := g + (desired - g) * 0.08 in
  (w', clamp (-24) 24 g').

(** A provided key whose value is not the one the reference object has. *)
Definition key_differs {A} (provided reference : option A) : Prop :=
  match provided, reference with
  | Some v, Some r => v <> r
  | _, _ => False
  end.

(** "Some explicitly-provided tunable field is not equal to the active
    preset's value": [row] is the active preset's object. *)
Definition differs_from (row incoming : Obj.t) : Prop :=
  key_differs (Obj.threshold incoming) (Obj.threshold row) \/
  key_differs (Obj.ratio incoming) (Obj.ratio row) \/
  key_differs (Obj.knee incoming) (Obj.knee row) \/
  key_differs (Obj.attack incoming) (Obj.attack row) \/
  key_differs (Obj.release incoming) (Obj.release row) \/
  key_differs (Obj.makeupGain incoming) (Obj.makeupGain row) \/
  key_differs (Obj.autoGain incoming) (Obj.autoGain row) \/
  key_differs (Obj.targetLevel incoming) (Obj.targetLevel row).

Definition edits_away (s : Settings) (incoming : Obj.t) : Prop :=
  exists row, PRESETS (preset s) = Some row /\ differs_from row incoming.

(** "The partial supplies a matching named preset". *)
Definition supplies_named (incoming : Obj.t) : Prop :=
  exists p, Obj.preset incoming = Some p /\ named p.

(** The merge rule as the specification words it. *)
Definition flips_to_custom (s : Settings) (incoming : Obj.t) : Prop :=
  ~ supplies_named incoming /\ edits_away s incoming.

End Spec.

(** The variables a running graph needs are set together: a stage set is
    only stored once a context exists, and the interval is only started
    once a stage set is stored. *)
Definition wired (st : State) : Prop :=
  (is_some (nodes st) = true -> is_some (audioCtx st) = true) /\
  (is_some (metering st) = true -> is_some (nodes st) = true).

(** [untouched st st']: the variables that neither a message handler nor
    a connection helper writes are the same in both states. *)
Definition untouched (st st' : State) : Prop :=
  audioCtx st' = audioCtx st /\ nodes st' = nodes st /\
  currentVideo st' = currentVideo st /\ metering st' = metering st /\
  levels st' = levels st /\ rmsHistory st' = rmsHistory st.

(** [rewired st st']: the two states differ in the live connections
    only. *)
Definition rewired (st st' : State) : Prop :=
  exists es,
    st' = with_world (mkWorld (tapped (world st)) es (fresh (world st))
                              (calls (world st))) st.

(** The settings a message leaves in the variable [settings]. *)
Definition settingsAfter (msg : Msg) (s : Settings) : Settings :=
  match msg with
  | UpdateSettings incoming => mergeSettings incoming s
  | ApplyPreset name =>
      match PRESETS name with
      | Some p => assign (assign s p) (preset_choice name)
      | None => s
      end
  | ResetSettings => DEFAULT_SETTINGS
  | GetState | OtherMsg => s
  end.

(** The eight parameter writes of [applySettingsToNodes], in order. *)
Definition parameter_calls (n : N.set) (s : Settings) : list Call :=
  [ SetValue (N.compressor n) PThreshold (threshold s);
    SetValue (N.compressor n) PRatio (ratio s);
    SetValue (N.compressor n) PKnee (knee s);
    SetValue (N.compressor n) PAttack (attack s / 1000);
    SetValue (N.compressor n) PRelease (release s / 1000);
    SetValue (N.makeupGain n) PGain (dBtoLinear (makeupGain s));
    SetValue (N.preGain n) PGain (dBtoLinear (preGain s));
    SetValue (N.limiter n) PThreshold (limiterThreshold s) ].

(** [carries row s]: the five compressor fields, [autoGain] and
    [targetLevel] of [s] are the values of the preset object [row]. *)
Definition carries (row : Obj.t) (s : Settings) : Prop :=
  Obj.threshold row = Some (threshold s) /\
  Obj.ratio row = Some (ratio s) /\
  Obj.knee row = Some (knee s) /\
  Obj.attack row = Some (attack s) /\
  Obj.release row = Some (release s) /\
  Obj.autoGain row = Some (autoGain s) /\
  Obj.targetLevel row = Some (targetLevel s).

(** The whole row, [makeupGain] included. *)
Definition carries_all (row : Obj.t) (s : Settings) : Prop :=
  carries row s /\ Obj.makeupGain row = Some (makeupGain s).

(** The invariant of the settings record. *)
Definition preset_invariant (s : Settings) : Prop :=
  named (preset s) ->
  exists row, PRESETS (preset s) = Some row /\ carries_all row s.

(** Payloads used in the examples below. *)
Definition only_threshold (v : R) : Obj.t :=
  {| Obj.enabled := None; Obj.preset := None; Obj.autoGain := None;
     Obj.targetLevel := None; Obj.threshold := Some v; Obj.ratio := None;
     Obj.knee := None; Obj.attack := None; Obj.release := None;
     Obj.makeupGain := None; Obj.preGain := None;
     Obj.limiterThreshold := None |}.

Definition only_preset (p : string) (e : option bool) : Obj.t :=
  {| Obj.enabled := e; Obj.preset := Some p; Obj.autoGain := None;
     Obj.targetLevel := None; Obj.threshold := None; Obj.ratio := None;
     Obj.knee := None; Obj.attack := None; Obj.release := None;
     Obj.makeupGain := None; Obj.preGain := None;
     Obj.limiterThreshold := None |}.

Definition only_autoGain (b : bool) : Obj.t :=
  {| Obj.enabled := None; Obj.preset := None; Obj.autoGain := Some b;
     Obj.targetLevel := None; Obj.threshold := None; Obj.ratio := None;
     Obj.knee := None; Obj.attack := None; Obj.release := None;
     Obj.makeupGain := None; Obj.preGain := None;
     Obj.limiterThreshold := None |}.

(** A run used in the examples: the first video becomes playable and is
    bound. *)
Definition first_bind : list Event := [Canplay 0 running 0%nat].

(** A run used in the examples: after the first bind one tick measures a
    full-scale block, then auto-gain is switched off. *)
Definition auto_gain_off_run : list Event :=
  first_bind ++ [Tick 0 (block 1) (block 1) 0;
                 Message 0 (UpdateSettings (only_autoGain false))].

(** A run used in the examples: a second video is bound after the
    first. *)
Definition rebind_run : list Event := first_bind ++ [Canplay 0 running 1%nat].

(** A run used in the examples: with both videos bound, the first one
    becomes playable again; it owns a tap already, so this bind fails. *)
Definition failed_bind_run : list Event :=
  rebind_run ++ [Canplay 2 running 0%nat].

(** A run used in the examples: after the failed bind of the first video
    the second one becomes playable again. *)
Definition other_bind_run : list Event :=
  failed_bind_run ++ [Canplay 3 running 1%nat].

(** [appends st st']: the calls of [st'] are those of [st] followed by
    further ones. *)
Definition appends (st st' : State) : Prop :=
  exists r, calls (world st') = calls (world st) ++ r.

(** An event that brings no other video than [v]. *)
Definition only_source (v : Video) (e : Event) : Prop :=
  match e with
  | Attach _ _ found _ => found = None \/ found = Some v
  | Canplay _ _ v' => v' = v
  | Message _ _ | Tick _ _ _ _ => True
  end.

(* ------------------------------------------------------------------ *)
(** ** The service worker (background.js) *)

(** The object [background.js] writes under [normalizerSettings]. *)
Definition INSTALL_SETTINGS : Obj.t :=
  {| Obj.enabled := Some true; Obj.preset := Some "medium";
     Obj.autoGain := Some true; Obj.targetLevel := Some (-14);
     Obj.threshold := Some (-24); Obj.ratio := Some 4; Obj.knee := Some 10;
     Obj.attack := Some 3; Obj.release := Some 250;
     Obj.makeupGain := Some 6; Obj.preGain := Some 0;
     Obj.limiterThreshold := Some (-1) |}.

(** The [chrome.runtime.onInstalled] listener: what it leaves in the store
    under [normalizerSettings], given what was there; [reason] is
    [details.reason]. *)
Definition onInstalled (reason : string) (stored : option Obj.t)
  : option Obj.t :=
  if reason =? "install" then Some INSTALL_SETTINGS else stored.

(* ------------------------------------------------------------------ *)
(** ** The popup script *)

(** What [pushSettings] reads from the page: the [checked] state of the two
    checkboxes and [parseFloat] of the value of each slider. *)
Module Dom.
Record t := mk {
  enabled : bool;
  autoGain : bool;
  targetLevel : R;
  threshold : R;
  ratio : R;
  knee : R;
  attack : R;
  release : R;
  makeupGain : R;
  preGain : R
}.
End Dom.

(** [{ ...a, ...b }] on objects with settings keys. *)
Definition spread (a b : Obj.t) : Obj.t :=
  {| Obj.enabled := match Obj.enabled b with
                    | Some v => Some v | None => Obj.enabled a end;
     Obj.preset := match Obj.preset b with
                   | Some v => Some v | None => Obj.preset a end;
     Obj.autoGain := match Obj.autoGain b with
                     | Some v => Some v | None => Obj.autoGain a end;
     Obj.targetLevel := match Obj.targetLevel b with
                        | Some v => Some v | None => Obj.targetLevel a end;
     Obj.threshold := match Obj.threshold b with
                      | Some v => Some v | None => Obj.threshold a end;
     Obj.ratio := match Obj.ratio b with
                  | Some v => Some v | None => Obj.ratio a end;
     Obj.knee := match Obj.knee b with
                 | Some v => Some v | None => Obj.knee a end;
     Obj.attack := match Obj.attack b with
                   | Some v => Some v | None => Obj.attack a end;
     Obj.release := match Obj.release b with
                    | Some v => Some v | None => Obj.release a end;
     Obj.makeupGain := match Obj.makeupGain b with
                       | Some v => Some v | None => Obj.makeupGain a end;
     Obj.preGain := match Obj.preGain b with
                    | Some v => Some v | None => Obj.preGain a end;
     Obj.limiterThreshold :=
       match Obj.limiterThreshold b with
       | Some v => Some v | None => Obj.limiterThreshold a end |}.

(** [function pushSettings(extra = {})]: the [settings] payload of the
    [updateSettings] message it sends. *)
Definition pushSettings (dom : Dom.t) (extra : Obj.t) : Obj.t :=
  spread
    {| Obj.enabled := Some (Dom.enabled dom);
       Obj.preset := None;
       Obj.autoGain := Some (Dom.autoGain dom);
       Obj.targetLevel := Some (Dom.targetLevel dom);
       Obj.threshold := Some (Dom.threshold dom);
       Obj.ratio := Some (Dom.ratio dom);
       Obj.knee := Some (Dom.knee dom);
       Obj.attack := Some (Dom.attack dom);
       Obj.release := Some (Dom.release dom);
       Obj.makeupGain := Some (Dom.makeupGain dom);
       Obj.preGain := Some (Dom.preGain dom);
       Obj.limiterThreshold := None |}
    extra.

(** The object literal [{ enabled: dom.enabled.checked }]. *)
Definition only_enabled (b : bool) : Obj.t :=
  {| Obj.enabled := Some b; Obj.preset := None; Obj.autoGain := None;
     Obj.targetLevel := None; Obj.threshold := None; Obj.ratio := None;
     Obj.knee := None; Obj.attack := None; Obj.release := None;
     Obj.makeupGain := None; Obj.preGain := None;
     Obj.limiterThreshold := None |}.

(** The listeners [bindEvents] registers, by what the user does. *)
Inductive Gesture :=
| ToggleEnabled                 (* change on #enabled *)
| ToggleAutoGain                (* change on #autoGain *)
| MoveSlider                    (* input on one of the eight sliders *)
| ClickPreset (name : string)   (* click on a .preset button *)
| ClickReset.                   (* click on #resetBtn *)

(** The message a listener sends; [dom] is the page when it runs. *)
Definition popupMessage (dom : Dom.t) (g : Gesture) : Msg :=
  match g with
  | ToggleEnabled =>
      UpdateSettings (pushSettings dom (only_enabled (Dom.enabled dom)))
  | ToggleAutoGain =>
      UpdateSettings (pushSettings dom (only_autoGain (Dom.autoGain dom)))
  | MoveSlider =>
      UpdateSettings (pushSettings dom (only_preset "custom" None))
  | ClickPreset name =>
      if name =? "custom"
      then UpdateSettings (pushSettings dom (only_preset "custom" None))
      else ApplyPreset name
  | ClickReset => ResetSettings
  end.

(** The bar geometry [updateMeters] writes, in percent: the widths of the
    input, output and gain-reduction bars, and the left edge and width of
    the auto-gain bar. *)
Record MeterView := mkMeterView {
  inWidth : R;
  outWidth : R;
  grWidth : R;
  agLeft : R;
  agWidth : R
}.

(** [function updateMeters(levels, autoGainValue)] on numeric readings, up
    to the style assignments (the text labels are not modelled).
    [autoGainValue || 0] is the value itself. *)
Definition updateMeters (inputRMS outputRMS reduction autoGainValue : R)
  : MeterView :=
  let inPct := Rmax 0 (Rmin 100 ((inputRMS + 60) / 60 * 100)) in
  let outPct := Rmax 0 (Rmin 100 ((outputRMS + 60) / 60 * 100)) in
  let grPct := Rmax 0 (Rmin 100 (Rabs reduction / 40 * 100)) in
  let ag := autoGainValue in
  let agNorm := Rmax (-24) (Rmin 24 ag) in
  let agPct := Rabs agNorm / 24 * 50 in
  if Rle_dec 0 agNorm
  then mkMeterView inPct outPct grPct 50 agPct
  else mkMeterView inPct outPct grPct (50 - agPct) agPct.

(* ------------------------------------------------------------------ *)
(** ** Vocabulary for the properties of runs *)

Definition opt_list {A} (o : option A) : list A :=
  match o with Some a => [a] | None => [] end.

Definition is_timer_call (c : Call) : bool :=
  match c with
  | SetInterval _ | ClearInterval _ => true
  | _ => false
  end.

(** The intervals that are running after a call, given those running
    before. *)
Definition after_call (active : list TimerId) (c : Call) : list TimerId :=
  match c with
  | SetInterval id => active ++ [id]
  | ClearInterval id => filter (fun x => negb (Nat.eqb x id)) active
  | _ => active
  end.

(** The intervals that are running after the calls [cs]. *)
Definition running_intervals (cs : list Call) : list TimerId :=
  fold_left after_call cs [].

(** A call that steers a gain does so to a target within [-24, +24] dB
    of unity. *)
Definition gain_in_range (c : Call) : Prop :=
  match c with
  | SetTargetAtTime _ PGain target _ _ =>
      dBtoLinear (-24) <= target <= dBtoLinear 24
  | _ => True
  end.

(** The calls that neither steer a parameter nor touch a timer. *)
Definition quiet_call (c : Call) : Prop :=
  match c with
  | StorageSet _ | CreateSource _ _ | Resume | AddCanplayListener _ => True
  | _ => False
  end.

(** Whether a connection leaves a node of the stage set. *)
Definition leaves (n : N.set) (e : NodeId * NodeId) : bool :=
  existsb (Nat.eqb (fst e)) (N.values n).

(** The connections that leave the stage set, in the order made. *)
Definition outgoing (n : N.set) (es : list (NodeId * NodeId))
  : list (NodeId * NodeId) :=
  filter (leaves n) es.

(** The connections that do not. *)
Definition foreign (n : N.set) (es : list (NodeId * NodeId))
  : list (NodeId * NodeId) :=
  filter (fun e => negb (leaves n e)) es.

(** The processing chain of a stage set into the destination. *)
Definition chain (n : N.set) (c : AudioContext) : list (NodeId * NodeId) :=
  [ (N.source n, N.inputAnalyser n); (N.inputAnalyser n, N.preGain n);
    (N.preGain n, N.autoGain n); (N.autoGain n, N.compressor n);
    (N.compressor n, N.makeupGain n); (N.makeupGain n, N.limiter n);
    (N.limiter n, N.outputAnalyser n);
    (N.outputAnalyser n, destination c) ].

(** The routing [route(enabled)] asks for. *)
Definition routing (on : bool) (n : N.set) (c : AudioContext)
  : list (NodeId * NodeId) :=
  if on then chain n c else [(N.source n, destination c)].

(** What holds of the graph variables in every state of a run. *)
Definition graph_ok (st : State) : Prop :=
  wired st /\
  (is_some (nodes st) = true -> is_some (metering st) = true) /\
  (forall n, nodes st = Some n -> NoDup (N.values n)).

(** What holds of the controller variables in every state of a run. *)
Definition controller_ok (st : State) : Prop :=
  -24 <= autoGainValue st <= 24 /\
  (List.length (rmsHistory st) <= RMS_HISTORY_LEN)%nat.

(** A call that touches no timer and keeps gains in range. *)
Definition steady (c : Call) : Prop :=
  is_timer_call c = false /\ gain_in_range c.

(** [appends_only Q st st']: the calls of [st'] are those of [st] followed
    by calls that all satisfy [Q]. *)
Definition appends_only (Q : Call -> Prop) (st st' : State) : Prop :=
  exists r, calls (world st') = calls (world st) ++ r /\ Forall Q r.

(** A run used in the examples: auto-gain is switched off right after
    the first bind. *)
Definition ramp_run : list Event :=
  first_bind ++ [Message 0 (UpdateSettings (only_autoGain false))].

(** The gestures whose listener calls [pushSettings]. *)
Definition pushes (g : Gesture) : Prop :=
  match g with
  | ToggleEnabled | ToggleAutoGain | MoveSlider => True
  | ClickPreset name => name = "custom"
  | ClickReset => False
  end.

(** A page used in the examples: the controls show the values of the
    heavy preset, with processing on. *)
Definition heavy_page : Dom.t :=
  Dom.mk true true (-11) (-35) 10 5 1 150 12 0.

(* ================================================================== *)
(** * Properties *)

(* ------------------------------------------------------------------ *)
(** ** Level Meter *)

Section LevelMeter.

Lemma ln10_pos : 0 < ln 10.
Proof. rewrite <- ln_1. apply ln_increasing; lra. Qed.

Lemma log10_inv_pow (n : nat) : log10 (/ 10 ^ n) = - INR n.
Proof.
  unfold log10.
  rewrite ln_Rinv by (apply pow_lt; lra).
  rewrite ln_pow by lra.
  pose proof ln10_pos. field. lra.
Qed.

Lemma log10_floor : log10 1e-10 = -10.
Proof.
  replace 1e-10 with (/ 10 ^ 10) by lra.
  rewrite log10_inv_pow. simpl. lra.
Qed.

Lemma log10_injective (x y : R) :
  0 < x -> 0 < y -> log10 x = log10 y -> x = y.
Proof.
  intros Hx Hy H. apply ln_inv; trivial.
  unfold log10 in H. pose proof ln10_pos as L.
  apply (Rmult_eq_reg_r (/ ln 10)); [exact H|].
  apply Rinv_neq_0_compat. lra.
Qed.

Lemma fold_squares (b : list R) (acc : R) :
  fold_left (fun a x => a + x * x) b acc = acc + Spec.sum_squares b.
Proof.
  revert acc. induction b as [|x b IH]; intros acc; simpl.
  - lra.
  - rewrite IH. lra.
Qed.

(** The loop of [calcRMS] computes the root-mean-square. *)
Lemma calcRMS_rms (b : list R) : calcRMS b = Spec.rms b.
Proof.
  unfold calcRMS, Spec.rms. rewrite fold_squares. f_equal. lra.
Qed.

Lemma sum_squares_zeros (b : list R) :
  Forall (fun x => x = 0) b -> Spec.sum_squares b = 0.
Proof.
  induction 1 as [|x b Hx _ IH]; simpl; [reflexivity|].
  rewrite IH, Hx. lra.
Qed.

Lemma rms_zeros (b : list R) :
  Forall (fun x => x = 0) b -> Spec.rms b = 0.
Proof.
  intros H. unfold Spec.rms. rewrite sum_squares_zeros by assumption.
  unfold Rdiv. rewrite Rmult_0_l. apply sqrt_0.
Qed.

Lemma sum_squares_repeat (x : R) (n : nat) :
  Spec.sum_squares (repeat x n) = INR n * (x * x).
Proof.
  induction n as [|n IH]; [simpl; lra|].
  cbn [repeat Spec.sum_squares]. rewrite IH, S_INR. lra.
Qed.

Lemma rms_block (x : R) : 0 <= x -> Spec.rms (block x) = x.
Proof.
  intros Hx. unfold Spec.rms, block.
  rewrite sum_squares_repeat, repeat_length.
  assert (0 < INR 2048) by (apply lt_0_INR; lia).
  replace (INR 2048 * (x * x) / INR 2048) with (x * x) by (field; lra).
  apply sqrt_square, Hx.
Qed.

Lemma block_not_empty (x : R) : block x <> [].
Proof. discriminate. Qed.

Lemma block_zeros : Forall (fun x => x = 0) (block 0).
Proof. apply Forall_forall. intros y H. apply repeat_spec in H. exact H. Qed.

Lemma meter_at_zero (b : list R) : Spec.rms b = 0 -> meter b = -200.
Proof.
  intros H. unfold meter, linearToDB, or_floor.
  rewrite calcRMS_rms, H.
  destruct (Req_dec_T 0 0) as [_|N]; [|contradiction].
  rewrite log10_floor. lra.
Qed.

Lemma meter_off_zero (b : list R) :
  Spec.rms b <> 0 -> meter b = 20 * log10 (Spec.rms b).
Proof.
  intros H. unfold meter, linearToDB, or_floor.
  rewrite calcRMS_rms.
  destruct (Req_dec_T (Spec.rms b) 0) as [E|_]; [contradiction|reflexivity].
Qed.

Lemma dBtoLinear_pos (d : R) : 0 < dBtoLinear d.
Proof. unfold dBtoLinear, Rpower. apply exp_pos. Qed.

(** [linearToDB] undoes [dBtoLinear]. *)
Lemma linearToDB_dBtoLinear (d : R) : linearToDB (dBtoLinear d) = d.
Proof.
  pose proof (dBtoLinear_pos d) as P. pose proof ln10_pos as L.
  unfold linearToDB, or_floor.
  destruct (Req_dec_T (dBtoLinear d) 0) as [E|_]; [lra|].
  unfold log10, dBtoLinear. rewrite ln_Rpower. field. lra.
Qed.

Lemma dBtoLinear_above_floor (d : R) : -40 <= d -> 0.0005 < dBtoLinear d.
Proof.
  intros H. unfold dBtoLinear.
  assert (E : Rpower 10 (- INR 3) = / 10 ^ 3)
    by (rewrite Rpower_Ropp, Rpower_pow by lra; reflexivity).
  assert (M : Rpower 10 (- INR 3) < Rpower 10 (d / 20))
    by (apply Rpower_lt; simpl; lra).
  rewrite E in M. lra.
Qed.

End LevelMeter.

(** C5, counterexample.  On a block of 2048 samples of amplitude [1e-11]
    the rms is [1e-11]: the code answers [20·log10(1e-11) = -220], the
    formula with the maximum answers [20·log10(1e-10) = -200]. *)
Lemma meter_is_not_max_floor :
  block 1e-11 <> [] /\
  meter (block 1e-11) = -220 /\
  Spec.levelMeter (block 1e-11) = -200 /\
  meter (block 1e-11) <> Spec.levelMeter (block 1e-11).
Proof.
  assert (R11 : Spec.rms (block 1e-11) = 1e-11) by (apply rms_block; lra).
  assert (M : meter (block 1e-11) = -220).
  { rewrite meter_off_zero by (rewrite R11; lra).
    rewrite R11. replace 1e-11 with (/ 10 ^ 11) by lra.
    rewrite log10_inv_pow. simpl. lra. }
  assert (L : Spec.levelMeter (block 1e-11) = -200).
  { unfold Spec.levelMeter. rewrite R11.
    rewrite Rmax_right by lra. rewrite log10_floor. lra. }
  split; [apply block_not_empty|].
  split; [exact M|]. split; [exact L|]. rewrite M, L. lra.
Qed.

(** C5, as the code has it.  For every non-empty block the Level Meter
    returns [20·log10(rms)] when the rms is not zero and
    [20·log10(1e-10) = -200] when it is zero: the floor replaces a zero
    rms only.  It agrees with [20·log10(max(rms, 1e-10))] whenever
    [rms >= 1e-10], and on a block of zeros it returns [-200]. *)
Theorem meter_floor_replaces_zero_only (buffer : list R) :
  buffer <> [] ->
  (Spec.rms buffer = 0 -> meter buffer = -200) /\
  (Spec.rms buffer <> 0 -> meter buffer = 20 * log10 (Spec.rms buffer)) /\
  (1e-10 <= Spec.rms buffer -> meter buffer = Spec.levelMeter buffer) /\
  (Forall (fun x => x = 0) buffer -> meter buffer = -200).
Proof.
  intros _. repeat split.
  - apply meter_at_zero.
  - apply meter_off_zero.
  - intros H. rewrite meter_off_zero by lra.
    unfold Spec.levelMeter. rewrite Rmax_left by lra. reflexivity.
  - intros H. apply meter_at_zero, rms_zeros, H.
Qed.

(** C5, an instance: a block of 2048 zero samples reads [-200] dB. *)
Lemma meter_floor_replaces_zero_only_witness :
  block 0 <> [] /\ Forall (fun x => x = 0) (block 0) /\
  meter (block 0) = -200.
Proof.
  split; [apply block_not_empty|]. split; [apply block_zeros|].
  exact (proj2 (proj2 (proj2 (meter_floor_replaces_zero_only
                                (block 0) (block_not_empty 0))))
               block_zeros).
Defined.

(* ------------------------------------------------------------------ *)
(** ** What each function leaves alone *)

Section Frames.

Ltac conjs := repeat match goal with |- _ /\ _ => split end.

Ltac by_cases st :=
  destruct st as [s [c|] [n|] v m g l h w];
  cbn;
  repeat (match goal with
          | |- context [if autoGain ?x then _ else _] => destruct (autoGain x)
          | |- context [if enabled ?x then _ else _] => destruct (enabled x)
          | |- context [match ?o with Some _ => _ | None => _ end] =>
              destruct o
          | |- context [if ?b then _ else _] => destruct b
          end; cbn);
  repeat split; reflexivity.

Lemma applySettingsToNodes_settings (now : R) (st : State) :
  settings (caught (applySettingsToNodes now st)) = settings st.
Proof. unfold applySettingsToNodes. by_cases st. Qed.

Lemma applySettingsToNodes_untouched (now : R) (st : State) :
  untouched st (caught (applySettingsToNodes now st)).
Proof. unfold untouched, applySettingsToNodes. by_cases st. Qed.

Lemma applySettingsToNodes_edges (now : R) (st : State) :
  edges (world (caught (applySettingsToNodes now st))) = edges (world st).
Proof. unfold applySettingsToNodes. by_cases st. Qed.

Lemma rewired_refl (st : State) : rewired st st.
Proof.
  exists (edges (world st)). destruct st as [s c n v m g l h [t e f k]].
  reflexivity.
Qed.

Lemma rewired_trans (a b c : State) :
  rewired a b -> rewired b c -> rewired a c.
Proof.
  intros [e1 ->] [e2 ->]. exists e2. reflexivity.
Qed.

Lemma connect_rewired (a b : NodeId) (st : State) :
  rewired st (connect a b st).
Proof.
  unfold connect. destruct (existsb _ _).
  - apply rewired_refl.
  - eexists. reflexivity.
Qed.

Lemma disconnect_rewired (n : NodeId) (st : State) :
  rewired st (disconnect n st).
Proof. eexists. reflexivity. Qed.

Lemma disconnectAll_rewired (st : State) : rewired st (disconnectAll st).
Proof.
  unfold disconnectAll. destruct (nodes st) as [n|]; [|apply rewired_refl].
  generalize (N.values n). intros ids. revert st.
  induction ids as [|x ids IH]; intros st; simpl.
  - apply rewired_refl.
  - eapply rewired_trans; [apply disconnect_rewired | apply IH].
Qed.

Lemma rewired_vars (st st' : State) :
  rewired st st' ->
  settings st' = settings st /\ autoGainValue st' = autoGainValue st /\
  calls (world st') = calls (world st) /\
  tapped (world st') = tapped (world st) /\
  fresh (world st') = fresh (world st) /\
  untouched st st'.
Proof. intros [es ->]. unfold untouched. cbn. repeat split; reflexivity. Qed.

Lemma connectProcessing_rewired (st : State) :
  rewired st (caught (connectProcessing st)).
Proof.
  unfold connectProcessing.
  pose proof (disconnectAll_rewired st) as H.
  destruct H as [e0 E0]. rewrite E0. cbn.
  destruct (nodes st) as [n|]; cbn; [|eexists; reflexivity].
  repeat (eapply rewired_trans; [|
    match goal with
    | |- rewired _ (caught (match audioCtx ?x with _ => _ end)) =>
        destruct (audioCtx x) eqn:?; cbn;
        [apply connect_rewired | apply rewired_refl]
    end ] ).
  repeat (eapply rewired_trans; [|apply connect_rewired]).
  eexists. reflexivity.
Qed.

Lemma connectBypass_rewired (st : State) :
  rewired st (caught (connectBypass st)).
Proof.
  unfold connectBypass.
  pose proof (disconnectAll_rewired st) as H.
  destruct H as [e0 E0]. rewrite E0. cbn.
  destruct (nodes st) as [n|], (audioCtx st) as [c|]; cbn;
    try (eexists; reflexivity).
  eapply rewired_trans; [|apply connect_rewired]. eexists. reflexivity.
Qed.

Lemma untouched_refl (st : State) : untouched st st.
Proof. unfold untouched. repeat split; reflexivity. Qed.

Lemma untouched_trans (a b c : State) :
  untouched a b -> untouched b c -> untouched a c.
Proof.
  unfold untouched. intros (A1 & A2 & A3 & A4 & A5 & A6) (B1 & B2 & B3 & B4 & B5 & B6).
  repeat split; congruence.
Qed.

Lemma fst_answer (o : Outcome) : fst (answer o) = caught o.
Proof. destruct o; reflexivity. Qed.

Lemma applySettingsToNodes_world (now : R) (st : State) :
  tapped (world (caught (applySettingsToNodes now st))) = tapped (world st) /\
  fresh (world (caught (applySettingsToNodes now st))) = fresh (world st).
Proof. unfold applySettingsToNodes. by_cases st. Qed.

(** The running auto-gain value after [applySettingsToNodes]: reset when a
    stage set exists and auto-gain is off, kept otherwise. *)
Lemma applySettingsToNodes_autoGainValue (now : R) (st : State) :
  autoGainValue (caught (applySettingsToNodes now st)) =
  if is_some (nodes st) && negb (autoGain (settings st)) then 0
  else autoGainValue st.
Proof. unfold applySettingsToNodes. by_cases st. Qed.

(** The calls of [applySettingsToNodes] when a graph exists. *)
Lemma applySettingsToNodes_calls (now : R) (st : State) (n : N.set)
      (c : AudioContext) :
  nodes st = Some n -> audioCtx st = Some c ->
  calls (world (caught (applySettingsToNodes now st))) =
  calls (world st) ++ parameter_calls n (settings st) ++
  (if autoGain (settings st) then []
   else [SetTargetAtTime (N.autoGain n) PGain 1 now 0.05]).
Proof.
  unfold applySettingsToNodes, parameter_calls.
  destruct st as [s c0 n0 v m g l h w]; cbn. intros -> ->.
  destruct (autoGain s); cbn; repeat rewrite <- app_assoc; reflexivity.
Qed.

(** A handler's tail: [applySettingsToNodes()] followed by a routing step
    that only rewires. *)
Lemma tail_vars (now : R) (k : State -> Outcome) (st : State) :
  (forall x, rewired x (caught (k x))) ->
  let st' := caught (andThen (applySettingsToNodes now st) k) in
  settings st' = settings st /\ untouched st st' /\
  autoGainValue st' = autoGainValue (caught (applySettingsToNodes now st)) /\
  tapped (world st') = tapped (world st) /\
  fresh (world st') = fresh (world st) /\
  calls (world st') = calls (world (caught (applySettingsToNodes now st))).
Proof.
  intros Hk st'. subst st'.
  pose proof (applySettingsToNodes_settings now st) as S1.
  pose proof (applySettingsToNodes_untouched now st) as U1.
  pose proof (applySettingsToNodes_world now st) as [T1 F1].
  destruct (applySettingsToNodes now st) as [st1|st1]; cbn in *.
  - destruct (rewired_vars _ _ (Hk st1)) as (S2 & G2 & C2 & T2 & F2 & U2).
    conjs; try congruence. eapply untouched_trans; eassumption.
  - conjs; trivial.
Qed.

Lemma route_rewired (b : option bool) (x : State) :
  rewired x (caught (match b with
                     | None => Done x
                     | Some true => connectProcessing x
                     | Some false => connectBypass x
                     end)).
Proof.
  destruct b as [[|]|].
  - apply connectProcessing_rewired.
  - apply connectBypass_rewired.
  - apply rewired_refl.
Qed.

Lemma route_enabled_rewired (x : State) :
  rewired x (caught (if enabled (settings x) then connectProcessing x
                     else connectBypass x)).
Proof.
  destruct (enabled (settings x)).
  - apply connectProcessing_rewired.
  - apply connectBypass_rewired.
Qed.

(** What a message does to the variables of the script. *)
Lemma onMessage_vars (now : R) (msg : Msg) (st : State) :
  let st' := fst (onMessage now msg st) in
  settings st' = settingsAfter msg (settings st) /\ untouched st st' /\
  tapped (world st') = tapped (world st) /\
  fresh (world st') = fresh (world st).
Proof.
  destruct msg as [|incoming|name| |]; cbn.
  - conjs; try reflexivity. apply untouched_refl.
  - rewrite fst_answer.
    destruct (tail_vars now
                (fun x => match Obj.enabled incoming with
                          | None => Done x
                          | Some true => connectProcessing x
                          | Some false => connectBypass x
                          end)
                (saveSettings (with_settings
                                 (mergeSettings incoming (settings st)) st))
                (route_rewired (Obj.enabled incoming)))
      as (S & U & _ & T & F & _).
    conjs; assumption.
  - destruct (PRESETS name) as [p|]; cbn;
      [|conjs; try reflexivity; apply untouched_refl].
    rewrite fst_answer.
    destruct (tail_vars now connectProcessing
                (saveSettings (with_settings
                   (assign (assign (settings st) p) (preset_choice name)) st))
                connectProcessing_rewired)
      as (S & U & _ & T & F & _).
    conjs; assumption.
  - rewrite fst_answer.
    destruct (tail_vars now
                (fun x => if enabled (settings x) then connectProcessing x
                          else connectBypass x)
                (saveSettings (with_settings DEFAULT_SETTINGS st))
                route_enabled_rewired)
      as (S & U & _ & T & F & _).
    conjs; assumption.
  - conjs; try reflexivity. apply untouched_refl.
Qed.

End Frames.

(* ------------------------------------------------------------------ *)
(** ** Parameter Bank: the merge rule of [updateSettings] *)

Section PresetTable.

Lemma named_row (p : string) :
  named p ->
  p <> "" /\ p <> "custom" /\
  exists row, PRESETS p = Some row /\ selected_preset (only_preset p None) = Some row /\
    forall x, carries_all row (assign x row) /\
              preset (assign x row) = preset x /\
              enabled (assign x row) = enabled x /\
              preGain (assign x row) = preGain x /\
              limiterThreshold (assign x row) = limiterThreshold x.
Proof.
  intros [-> | [-> | ->]]; (split; [discriminate|]); (split; [discriminate|]);
    eexists; (split; [reflexivity|]); (split; [reflexivity|]);
    intros x; unfold carries_all, carries; cbn; repeat split; reflexivity.
Qed.

(** No object read from the table carries a [preset] or [enabled] key. *)
Lemma PRESETS_keys (p : string) (row : Obj.t) :
  PRESETS p = Some row -> Obj.preset row = None /\ Obj.enabled row = None.
Proof.
  unfold PRESETS.
  repeat (match goal with |- context [if ?b then _ else _] => destruct b end);
    intros E; inversion E; subst; split; reflexivity.
Qed.

Lemma selected_preset_some (incoming : Obj.t) (row : Obj.t) :
  selected_preset incoming = Some row ->
  exists p, Obj.preset incoming = Some p /\ p <> "custom" /\
            PRESETS p = Some row.
Proof.
  unfold selected_preset. destruct (Obj.preset incoming) as [p|]; [|discriminate].
  destruct (p =? "") eqn:E1; [discriminate|].
  destruct (p =? "custom") eqn:E2; [discriminate|].
  intros H. exists p. repeat split; trivial.
  apply String.eqb_neq, E2.
Qed.

Lemma selected_preset_named (incoming : Obj.t) (p : string) :
  Obj.preset incoming = Some p -> named p ->
  exists row, selected_preset incoming = Some row /\ PRESETS p = Some row.
Proof.
  intros E Hp. unfold selected_preset. rewrite E.
  destruct Hp as [-> | [-> | ->]]; eexists; split; reflexivity.
Qed.

(** The preset name [updateSettings] leaves behind. *)
Lemma mergeSettings_preset (incoming : Obj.t) (s : Settings) :
  preset (mergeSettings incoming s) =
  match Obj.preset incoming with
  | None => "custom"
  | Some p => p
  end.
Proof.
  unfold mergeSettings.
  destruct (selected_preset incoming) as [row|] eqn:Sel.
  - destruct (selected_preset_some _ _ Sel) as (p & E & _ & Hrow).
    destruct (PRESETS_keys _ _ Hrow) as [K _].
    cbn. rewrite K, E. reflexivity.
  - unfold preset_differs.
    destruct (Obj.preset incoming) as [p|] eqn:E; [|reflexivity].
    assert (H : preset (assign s incoming) = p) by (cbn; rewrite E; reflexivity).
    rewrite H, String.eqb_refl. exact H.
Qed.

End PresetTable.

(** C1, counterexample.  From the defaults (preset [medium], threshold
    [-24]) the update [{ threshold: -24 }] provides one field, equal to the
    active preset's value, and no preset name; the merge rule of the
    specification keeps the preset, the code sets it to [custom]. *)
Lemma update_equal_field_flips_to_custom :
  Obj.preset (only_threshold (-24)) = None /\
  preset (settings initial) = "medium" /\
  ~ Spec.flips_to_custom (settings initial) (only_threshold (-24)) /\
  preset (settings (fst (onMessage 0 (UpdateSettings (only_threshold (-24)))
                                   initial))) = "custom" /\
  ~ (preset (settings (fst (onMessage 0 (UpdateSettings (only_threshold (-24)))
                                      initial))) = "custom"
     <-> Spec.flips_to_custom (settings initial) (only_threshold (-24))).
Proof.
  assert (NF : ~ Spec.flips_to_custom (settings initial) (only_threshold (-24))).
  { intros [_ (row & E & D)]. cbn in E. inversion E; subst row.
    unfold Spec.differs_from in D. cbn in D.
    destruct D as [D|D]; [apply D; reflexivity|].
    repeat (destruct D as [D|D]; [exact D|]). exact D. }
  assert (C : preset (settings (fst (onMessage 0
                 (UpdateSettings (only_threshold (-24))) initial))) = "custom").
  { destruct (onMessage_vars 0 (UpdateSettings (only_threshold (-24))) initial)
      as (S & _). rewrite S. reflexivity. }
  repeat split; trivial.
  intros [H _]. apply NF, H, C.
Qed.

(** C1, as the code has it.  After [updateSettings(partial)] the preset
    name is ['custom'] exactly when the partial carries no preset name or
    carries ['custom'] itself; the values of the provided fields play no
    part. *)
Theorem updateSettings_custom_iff (now : R) (incoming : Obj.t) (st : State) :
  preset (settings (fst (onMessage now (UpdateSettings incoming) st)))
    = "custom"
  <-> (Obj.preset incoming = None \/ Obj.preset incoming = Some "custom").
Proof.
  destruct (onMessage_vars now (UpdateSettings incoming) st) as (S & _).
  rewrite S. cbn. rewrite mergeSettings_preset.
  destruct (Obj.preset incoming) as [p|].
  - split.
    + intros ->. right. reflexivity.
    + intros [H|H]; [discriminate | congruence].
  - split; [left|]; reflexivity.
Qed.

(** C7, counterexample.  With processing switched off, the update
    [{ preset: 'light' }] selects the preset and leaves [enabled] false. *)
Lemma update_named_preset_keeps_disabled :
  named "light" /\
  enabled (settings (fst (onMessage 0 (UpdateSettings (only_preset "light" None))
             (with_settings (assign DEFAULT_SETTINGS
                               (only_preset "custom" (Some false)))
                            initial)))) = false /\
  enabled (settings (fst (onMessage 0
             (UpdateSettings (only_preset "heavy" (Some false))) initial)))
    = false.
Proof.
  split; [left; reflexivity|]. split.
  - match goal with |- enabled (settings (fst (onMessage ?t ?m ?s))) = _ =>
      destruct (onMessage_vars t m s) as (S & _); rewrite S end.
    reflexivity.
  - match goal with |- enabled (settings (fst (onMessage ?t ?m ?s))) = _ =>
      destruct (onMessage_vars t m s) as (S & _); rewrite S end.
    reflexivity.
Qed.

(** C7, as the code has it.  An [updateSettings(partial)] whose preset name
    is light, medium or heavy sets the preset name and that preset's whole
    tuple together, over any tuple field of the partial; [enabled] is the
    partial's own [enabled] when it has one and is left as it was
    otherwise, and so are [preGain] and [limiterThreshold]. *)
Theorem updateSettings_named_preset
        (now : R) (incoming : Obj.t) (st : State) (p : string) :
  Obj.preset incoming = Some p -> named p ->
  exists row,
    PRESETS p = Some row /\
    preset (settings (fst (onMessage now (UpdateSettings incoming) st))) = p /\
    carries_all row
      (settings (fst (onMessage now (UpdateSettings incoming) st))) /\
    enabled (settings (fst (onMessage now (UpdateSettings incoming) st)))
      = or_old (Obj.enabled incoming) (enabled (settings st)) /\
    preGain (settings (fst (onMessage now (UpdateSettings incoming) st)))
      = or_old (Obj.preGain incoming) (preGain (settings st)) /\
    limiterThreshold
      (settings (fst (onMessage now (UpdateSettings incoming) st)))
      = or_old (Obj.limiterThreshold incoming) (limiterThreshold (settings st)).
Proof.
  intros E Hp.
  destruct (onMessage_vars now (UpdateSettings incoming) st) as (S & _).
  rewrite S. clear S. cbn.
  destruct (selected_preset_named _ _ E Hp) as (row & Sel & Hrow).
  destruct (named_row p Hp) as (_ & _ & row' & Hrow' & _ & A).
  rewrite Hrow in Hrow'. inversion Hrow'; subst row'.
  exists row. split; [exact Hrow|].
  unfold mergeSettings. rewrite Sel.
  destruct (A (assign (settings st) incoming)) as (C & P & En & Pg & Lt).
  repeat split; try apply C.
  - rewrite P. cbn. rewrite E. reflexivity.
  - rewrite En. reflexivity.
  - rewrite Pg. reflexivity.
  - rewrite Lt. reflexivity.
Qed.

(** C7, an instance: [{ preset: 'heavy', enabled: false }] on the
    initial state. *)
Lemma updateSettings_named_preset_witness :
  exists row,
    PRESETS "heavy" = Some row /\
    preset (settings (fst (onMessage 0
              (UpdateSettings (only_preset "heavy" (Some false))) initial)))
      = "heavy" /\
    carries_all row
      (settings (fst (onMessage 0
              (UpdateSettings (only_preset "heavy" (Some false))) initial))).
Proof.
  destruct (updateSettings_named_preset 0 (only_preset "heavy" (Some false))
              initial "heavy" eq_refl (or_intror (or_intror eq_refl)))
    as (row & H1 & H2 & H3 & _).
  exists row. repeat split; try assumption; apply H3.
Defined.

(* ------------------------------------------------------------------ *)
(** ** Invariants of a run *)

Section RunInvariants.

Lemma caught_andThen_keeps {A} (f : State -> A) (o : Outcome)
      (k : State -> Outcome) :
  (forall x, f (caught (k x)) = f x) ->
  f (caught (andThen o k)) = f (caught o).
Proof. intros H. destruct o; cbn; [apply H | reflexivity]. Qed.

Lemma tick_vars (now : R) (inBuf outBuf : list R) (red : R) (st : State) :
  settings (tick now inBuf outBuf red st) = settings st /\
  audioCtx (tick now inBuf outBuf red st) = audioCtx st /\
  nodes (tick now inBuf outBuf red st) = nodes st /\
  currentVideo (tick now inBuf outBuf red st) = currentVideo st /\
  metering (tick now inBuf outBuf red st) = metering st /\
  edges (world (tick now inBuf outBuf red st)) = edges (world st) /\
  tapped (world (tick now inBuf outBuf red st)) = tapped (world st).
Proof.
  unfold tick. destruct st as [s [c|] [n|] v m g l h w]; cbn;
    try (repeat split; reflexivity).
  destruct (enabled s), (autoGain s), (Rlt_dec 0.0005 (calcRMS inBuf));
    cbn; repeat split; reflexivity.
Qed.

(** The part of [buildGraph] after the stage set is stored. *)
Lemma activate_keeps {A} (f : State -> A) (now : R) (st : State) :
  (forall x, untouched x (caught (applySettingsToNodes now x)) ->
             settings (caught (applySettingsToNodes now x)) = settings x ->
             f (caught (applySettingsToNodes now x)) = f x) ->
  (forall x y, rewired x y -> f y = f x) ->
  (forall x c, f (call c x) = f x) ->
  (forall x, f (startMetering x) = f x) ->
  f (caught (activate now st)) = f st.
Proof.
  intros Ha Hr Hc Hm. unfold activate.
  rewrite caught_andThen_keeps.
  - apply Ha; [apply applySettingsToNodes_untouched
              | apply applySettingsToNodes_settings].
  - intros x. rewrite caught_andThen_keeps.
    + apply Hr. apply route_enabled_rewired.
    + intros y. unfold caught. rewrite Hm.
      destruct (audioCtx y) as [c|]; [|reflexivity].
      destruct (ctxState c); try reflexivity. apply Hc.
Qed.

Lemma startMetering_vars (x : State) :
  settings (startMetering x) = settings x /\
  audioCtx (startMetering x) = audioCtx x /\
  nodes (startMetering x) = nodes x /\
  currentVideo (startMetering x) = currentVideo x /\
  is_some (metering (startMetering x)) = true /\
  edges (world (startMetering x)) = edges (world x) /\
  tapped (world (startMetering x)) = tapped (world x).
Proof.
  unfold startMetering. destruct x as [s c n v [m|] g l h w]; cbn;
    repeat split; reflexivity.
Qed.

Lemma activate_vars (now : R) (st : State) :
  settings (caught (activate now st)) = settings st /\
  audioCtx (caught (activate now st)) = audioCtx st /\
  nodes (caught (activate now st)) = nodes st /\
  currentVideo (caught (activate now st)) = currentVideo st /\
  tapped (world (caught (activate now st))) = tapped (world st).
Proof.
  repeat match goal with |- _ /\ _ => split end;
    [ apply (activate_keeps settings)
    | apply (activate_keeps audioCtx)
    | apply (activate_keeps nodes)
    | apply (activate_keeps currentVideo)
    | apply (activate_keeps (fun x => tapped (world x))) ];
    try (intros x U S; first [exact S | apply U
                              | apply applySettingsToNodes_world]);
    try (intros x y H; destruct (rewired_vars _ _ H) as (S & _ & _ & T & _ & U);
         first [exact S | exact T | apply U]);
    try (intros; reflexivity);
    intros x; apply startMetering_vars.
Qed.

Lemma ensureContext_vars (boot : CtxState) (st : State) :
  settings (ensureContext boot st) = settings st /\
  nodes (ensureContext boot st) = nodes st /\
  currentVideo (ensureContext boot st) = currentVideo st /\
  metering (ensureContext boot st) = metering st /\
  autoGainValue (ensureContext boot st) = autoGainValue st /\
  rmsHistory (ensureContext boot st) = rmsHistory st /\
  levels (ensureContext boot st) = levels st /\
  tapped (world (ensureContext boot st)) = tapped (world st) /\
  edges (world (ensureContext boot st)) = edges (world st) /\
  calls (world (ensureContext boot st)) = calls (world st) /\
  is_some (audioCtx (ensureContext boot st)) = true.
Proof.
  unfold ensureContext. destruct st as [s [[[] d]|] n v m g l h w]; cbn;
    repeat split; reflexivity.
Qed.

Lemma createStages_vars (source : NodeId) (st : State) :
  settings (createStages source st) = settings st /\
  audioCtx (createStages source st) = audioCtx st /\
  currentVideo (createStages source st) = currentVideo st /\
  is_some (nodes (createStages source st)) = true /\
  tapped (world (createStages source st)) = tapped (world st) /\
  edges (world (createStages source st)) = edges (world st).
Proof.
  destruct st as [s c n v m g l h w]; cbn. repeat split; reflexivity.
Qed.

Lemma buildGraph_settings (now : R) (boot : CtxState) (video : Video)
      (st : State) :
  settings (buildGraph now boot video st) = settings st.
Proof.
  unfold buildGraph.
  destruct (same_video (currentVideo st) video && is_some (audioCtx st));
    [reflexivity|].
  cbv zeta.
  pose proof (ensureContext_vars boot (with_currentVideo (Some video) st))
    as (S & _).
  destruct (createMediaElementSource _ video) as [[src w]|].
  - destruct (activate_vars now
                (createStages src
                   (call (CreateSource video true)
                      (with_world w
                         (ensureContext boot
                            (with_currentVideo (Some video) st))))))
      as (S1 & _).
    rewrite S1.
    destruct (createStages_vars src
                (call (CreateSource video true)
                   (with_world w
                      (ensureContext boot
                         (with_currentVideo (Some video) st)))))
      as (S2 & _).
    rewrite S2. exact S.
  - exact S.
Qed.

Lemma buildGraph_wired (now : R) (boot : CtxState) (video : Video)
      (st : State) :
  wired st -> wired (buildGraph now boot video st).
Proof.
  intros [W1 W2]. unfold buildGraph.
  destruct (same_video (currentVideo st) video && is_some (audioCtx st));
    [split; assumption|].
  cbv zeta.
  pose proof (ensureContext_vars boot (with_currentVideo (Some video) st))
    as (_ & Nx & _ & Mx & _ & _ & _ & _ & _ & _ & Cx).
  destruct (createMediaElementSource _ video) as [[src w]|].
  - match goal with |- wired (caught (activate _ (createStages _ ?x))) =>
      destruct (activate_vars now (createStages src x)) as (_ & A1 & A2 & _);
      destruct (createStages_vars src x) as (_ & B1 & _ & B2 & _)
    end.
    assert (Hc : is_some (audioCtx (caught (activate now
                   (createStages src
                      (call (CreateSource video true)
                         (with_world w
                            (ensureContext boot
                               (with_currentVideo (Some video) st)))))))) = true).
    { rewrite A1, B1. exact Cx. }
    split; intros _; [exact Hc|]. rewrite A2. exact B2.
  - split; cbn.
    + intros _. exact Cx.
    + rewrite Mx, Nx. exact W2.
Qed.

Lemma step_settings (e : Event) (st : State) :
  settings (step e st) =
  match e with
  | Message _ msg => settingsAfter msg (settings st)
  | _ => settings st
  end.
Proof.
  destruct e as [now msg|now i o r|now boot [v|] rs|now boot v];
    unfold step, tryAttach.
  - apply onMessage_vars.
  - destruct (is_some (metering st)); [apply tick_vars | reflexivity].
  - destruct (same_video (currentVideo st) v); [reflexivity|].
    destruct (Nat.leb 2 rs); [apply buildGraph_settings | reflexivity].
  - reflexivity.
  - apply buildGraph_settings.
Qed.

Lemma step_wired (e : Event) (st : State) : wired st -> wired (step e st).
Proof.
  intros W.
  destruct e as [now msg|now i o r|now boot [v|] rs|now boot v];
    unfold step, tryAttach.
  - destruct (onMessage_vars now msg st) as (_ & (U1 & U2 & _ & U4 & _) & _).
    unfold wired. rewrite U1, U2, U4. exact W.
  - destruct (is_some (metering st)); [|exact W].
    destruct (tick_vars now i o r st) as (_ & T1 & T2 & _ & T4 & _).
    unfold wired. rewrite T1, T2, T4. exact W.
  - destruct (same_video (currentVideo st) v); [exact W|].
    destruct (Nat.leb 2 rs); [apply buildGraph_wired, W | exact W].
  - exact W.
  - apply buildGraph_wired, W.
Qed.

Lemma run_snoc (es : list Event) (e : Event) (st : State) :
  run (es ++ [e]) st = step e (run es st).
Proof. unfold run. rewrite fold_left_app. reflexivity. Qed.

Lemma run_app (es es' : list Event) (st : State) :
  run (es ++ es') st = run es' (run es st).
Proof. unfold run. apply fold_left_app. Qed.

Lemma run_two (e1 e2 : Event) (st : State) :
  run [e1; e2] st = step e2 (step e1 st).
Proof. reflexivity. Qed.

Lemma run_wired (es : list Event) (st : State) :
  wired st -> wired (run es st).
Proof.
  revert st. induction es as [|e es IH]; intros st W; [exact W|].
  cbn. apply IH, step_wired, W.
Qed.

Lemma loadSettings_wired (stored : option Obj.t) :
  wired (loadSettings stored initial).
Proof. destruct stored; split; cbn; discriminate. Qed.

End RunInvariants.

(* ------------------------------------------------------------------ *)
(** ** Parameter Bank: the preset invariant *)

Section PresetInvariant.

Lemma default_invariant : preset_invariant DEFAULT_SETTINGS.
Proof.
  intros _. exists PRESET_medium. split; [reflexivity|].
  unfold carries_all, carries. cbn. repeat split; reflexivity.
Qed.

Lemma carries_all_choice (row : Obj.t) (x : Settings) (name : string) :
  carries_all row x -> carries_all row (assign x (preset_choice name)).
Proof. intros H. exact H. Qed.

Lemma settingsAfter_invariant (msg : Msg) (s : Settings) :
  preset_invariant s -> preset_invariant (settingsAfter msg s).
Proof.
  intros I. destruct msg as [|incoming|name| |]; cbn; trivial.
  - (* updateSettings *)
    intros Hn. rewrite mergeSettings_preset in *.
    destruct (Obj.preset incoming) as [p|] eqn:E.
    + destruct (selected_preset_named _ _ E Hn) as (row & Sel & Hrow).
      destruct (named_row p Hn) as (_ & _ & row' & Hrow' & _ & A).
      rewrite Hrow in Hrow'. inversion Hrow'; subst row'.
      exists row. split; [exact Hrow|].
      unfold mergeSettings. rewrite Sel. apply A.
    + destruct Hn as [H | [H | H]]; discriminate.
  - (* applyPreset *)
    destruct (PRESETS name) as [row|] eqn:Hrow; [|exact I].
    intros Hn.
    assert (P : preset (assign (assign s row) (preset_choice name)) = name)
      by reflexivity.
    rewrite P in *.
    destruct (named_row name Hn) as (_ & _ & row' & Hrow' & _ & A).
    rewrite Hrow in Hrow'. inversion Hrow'; subst row'.
    exists row. split; [exact Hrow|].
    apply carries_all_choice, A.
  - (* resetSettings *)
    apply default_invariant.
Qed.

Lemma run_invariant (es : list Event) (st : State) :
  preset_invariant (settings st) -> preset_invariant (settings (run es st)).
Proof.
  revert st. induction es as [|e es IH]; intros st I; [exact I|].
  cbn. apply IH. rewrite step_settings.
  destruct e; trivial. apply settingsAfter_invariant, I.
Qed.

End PresetInvariant.

(** C2.  In every state reached from the default settings by messages
    ([getState], [updateSettings], [applyPreset], [resetSettings], or any
    other), metering ticks and bind attempts, a preset name among light,
    medium and heavy comes with that preset's threshold, ratio, knee,
    attack, release, autoGain and targetLevel. *)
Theorem named_preset_has_its_tuple (es : list Event) (st0 : State) :
  settings st0 = DEFAULT_SETTINGS ->
  named (preset (settings (run es st0))) ->
  exists row,
    PRESETS (preset (settings (run es st0))) = Some row /\
    carries row (settings (run es st0)).
Proof.
  intros D Hn.
  assert (I : preset_invariant (settings (run es st0))).
  { apply run_invariant. rewrite D. apply default_invariant. }
  destruct (I Hn) as (row & Hrow & C & _).
  exists row. split; assumption.
Qed.

(** C2, an instance: [applyPreset('heavy')] followed by [getState]. *)
Lemma named_preset_has_its_tuple_witness :
  exists row,
    PRESETS (preset (settings (run [Message 0 (ApplyPreset "heavy");
                                    Message 1 GetState] initial)))
      = Some row /\
    carries row (settings (run [Message 0 (ApplyPreset "heavy");
                                Message 1 GetState] initial)).
Proof.
  apply (named_preset_has_its_tuple
           [Message 0 (ApplyPreset "heavy"); Message 1 GetState] initial).
  - reflexivity.
  - right. right.
    unfold run. cbn [fold_left]. rewrite !step_settings. reflexivity.
Defined.

Lemma applySettingsToNodes_appends (now : R) (st : State) :
  exists r, calls (world (caught (applySettingsToNodes now st)))
            = calls (world st) ++ r.
Proof.
  unfold applySettingsToNodes.
  destruct st as [s [c|] [n|] v m g l h w]; cbn;
    try (exists []; rewrite app_nil_r; reflexivity);
    destruct (autoGain s); cbn; repeat rewrite <- app_assoc;
    eexists; reflexivity.
Qed.

(** C9, the code at an inherited property name.  ['toString'] is not in
    the preset table, yet [PRESETS['toString']] is truthy: [applyPreset]
    stores the name as the preset, forces [enabled], and writes the
    settings to the store. *)
Theorem applyPreset_inherited_name_is_applied (now : R) (st : State) :
  ~ named "toString" /\
  preset (settings (fst (onMessage now (ApplyPreset "toString") st)))
    = "toString" /\
  enabled (settings (fst (onMessage now (ApplyPreset "toString") st)))
    = true /\
  exists rest,
    calls (world (fst (onMessage now (ApplyPreset "toString") st))) =
    calls (world st) ++
    StorageSet (settings (fst (onMessage now (ApplyPreset "toString") st)))
    :: rest.
Proof.
  split; [intros [H | [H | H]]; discriminate|].
  destruct (onMessage_vars now (ApplyPreset "toString") st) as (S & _).
  rewrite S. split; [reflexivity|]. split; [reflexivity|].
  cbn. rewrite fst_answer.
  set (s' := assign (assign (settings st) Obj.empty) (preset_choice "toString")).
  destruct (applySettingsToNodes_appends now
              (saveSettings (with_settings s' st))) as [r1 A].
  exists r1. unfold andThen.
  destruct (applySettingsToNodes now (saveSettings (with_settings s' st)))
    as [y|y]; cbn in A |- *.
  - destruct (rewired_vars _ _ (connectProcessing_rewired y)) as (_ & _ & C & _).
    rewrite C, A, <- app_assoc. reflexivity.
  - rewrite A, <- app_assoc. reflexivity.
Qed.

(** A name that reads as [undefined] in the table is ignored: nothing
    changes and the current settings are returned. *)
Lemma applyPreset_unresolved_noop (now : R) (name : string) (st : State) :
  PRESETS name = None ->
  onMessage now (ApplyPreset name) st = (st, Some (Success (settings st))).
Proof. intros H. cbn. rewrite H. reflexivity. Qed.

(* ------------------------------------------------------------------ *)
(** ** Auto-Gain Controller *)

Section AutoGain.

Lemma push_history_push (x : R) (h : list R) :
  push_history x h = Spec.push 20 x h.
Proof.
  unfold push_history, Spec.push, RMS_HISTORY_LEN.
  destruct (h ++ [x]) as [|o r] eqn:E.
  - destruct h; discriminate.
  - destruct (Nat.leb_spec (List.length (o :: r)) 20) as [L|L].
    + apply Nat.ltb_ge in L. rewrite L. reflexivity.
    + apply Nat.ltb_lt in L. rewrite L. reflexivity.
Qed.

Lemma fold_sum (h : list R) (acc : R) :
  fold_left (fun a b => a + b) h acc = acc + Spec.sum h.
Proof.
  revert acc. induction h as [|x h IH]; intros acc; simpl.
  - lra.
  - rewrite IH. lra.
Qed.

Lemma average_mean (h : list R) : average h = Spec.mean h.
Proof. unfold average, Spec.mean. rewrite fold_sum. f_equal. lra. Qed.

Lemma max_min_clamp (lo hi x : R) :
  lo <= hi -> Rmax lo (Rmin hi x) = Spec.clamp lo hi x.
Proof.
  intros H. unfold Spec.clamp.
  destruct (Rlt_dec x lo) as [A|A].
  - rewrite Rmin_right by lra. apply Rmax_left. lra.
  - destruct (Rlt_dec hi x) as [B|B].
    + rewrite Rmin_left by lra. apply Rmax_right. lra.
    + rewrite Rmin_right by lra. apply Rmax_right. lra.
Qed.

(** The two outcomes of a tick that has a graph. *)
Lemma tick_active (now : R) (inBuf outBuf : list R) (red : R) (st : State) :
  is_some (audioCtx st) = true -> is_some (nodes st) = true ->
  enabled (settings st) = true -> autoGain (settings st) = true ->
  0.0005 < calcRMS inBuf ->
  rmsHistory (tick now inBuf outBuf red st)
    = push_history (meter inBuf) (rmsHistory st) /\
  autoGainValue (tick now inBuf outBuf red st)
    = Rmax (-24)
        (Rmin 24
           (autoGainValue st +
            (targetLevel (settings st)
             - average (push_history (meter inBuf) (rmsHistory st))
             - autoGainValue st) * 0.08)).
Proof.
  unfold tick, meter. destruct st as [s [c|] [n|] v m g l h w]; cbn;
    try discriminate.
  intros _ _ -> -> H.
  destruct (Rlt_dec 0.0005 (calcRMS inBuf)) as [_|N]; [|contradiction].
  cbn. split; reflexivity.
Qed.

Lemma tick_idle (now : R) (inBuf outBuf : list R) (red : R) (st : State) :
  ~ (enabled (settings st) = true /\ autoGain (settings st) = true /\
     0.0005 < calcRMS inBuf) ->
  rmsHistory (tick now inBuf outBuf red st) = rmsHistory st /\
  autoGainValue (tick now inBuf outBuf red st) = autoGainValue st.
Proof.
  unfold tick. destruct st as [s [c|] [n|] v m g l h w]; cbn;
    try (intros _; split; reflexivity).
  intros H.
  destruct (enabled s); [|split; reflexivity].
  destruct (autoGain s); [|split; reflexivity].
  destruct (Rlt_dec 0.0005 (calcRMS inBuf)) as [L|_]; [|split; reflexivity].
  exfalso. apply H. repeat split. exact L.
Qed.

Lemma loud_meter (b : list R) :
  0.0005 < Spec.rms b -> meter b = Spec.levelMeter b.
Proof.
  intros H. rewrite meter_off_zero by lra.
  unfold Spec.levelMeter. rewrite Rmax_left by lra. reflexivity.
Qed.

End AutoGain.

(** C3.  In a state [st] of a run whose metering interval is active, a tick
    with processing enabled, auto-gain on and an input rms above [0.0005]
    turns (window, autoGainValue) into what the specified step gives for
    the input loudness: push with capacity 20, mean, approach by [0.08],
    clamp to [[-24, 24]].  A tick on which one of the three conditions
    fails leaves both as they were. *)
Theorem tick_is_the_specified_step
        (stored : option Obj.t) (es : list Event) (st : State)
        (now : R) (inBuf outBuf : list R) (red : R) :
  st = run es (loadSettings stored initial) ->
  is_some (metering st) = true ->
  (enabled (settings st) = true /\ autoGain (settings st) = true /\
   0.0005 < Spec.rms inBuf ->
   (rmsHistory (step (Tick now inBuf outBuf red) st),
    autoGainValue (step (Tick now inBuf outBuf red) st))
   = Spec.agc (targetLevel (settings st)) (Spec.levelMeter inBuf)
              (rmsHistory st) (autoGainValue st))
  /\
  (~ (enabled (settings st) = true /\ autoGain (settings st) = true /\
      0.0005 < Spec.rms inBuf) ->
   rmsHistory (step (Tick now inBuf outBuf red) st) = rmsHistory st /\
   autoGainValue (step (Tick now inBuf outBuf red) st) = autoGainValue st).
Proof.
  intros Hrun Hm.
  assert (W : wired st)
    by (rewrite Hrun; apply run_wired, loadSettings_wired).
  destruct W as [W1 W2].
  unfold step. rewrite Hm. rewrite <- calcRMS_rms. split.
  - intros (He & Ha & Hl).
    destruct (tick_active now inBuf outBuf red st) as [Hh Hg]; auto.
    rewrite Hh, Hg. unfold Spec.agc.
    rewrite calcRMS_rms in Hl.
    rewrite (loud_meter inBuf Hl), <- push_history_push, <- average_mean.
    rewrite max_min_clamp by lra.
    reflexivity.
  - apply tick_idle.
Qed.

(** C3, an instance: the first tick after the first bind, on a
    full-scale block. *)
Lemma tick_is_the_specified_step_witness :
  (rmsHistory (step (Tick 0 (block 1) (block 1) 0) (run first_bind initial)),
   autoGainValue (step (Tick 0 (block 1) (block 1) 0)
                       (run first_bind initial)))
  = Spec.agc (targetLevel (settings (run first_bind initial)))
             (Spec.levelMeter (block 1))
             (rmsHistory (run first_bind initial))
             (autoGainValue (run first_bind initial)).
Proof.
  apply (proj1 (tick_is_the_specified_step None first_bind
                  (run first_bind initial) 0 (block 1) (block 1) 0
                  eq_refl eq_refl)).
  split; [reflexivity|]. split; [reflexivity|].
  rewrite rms_block; lra.
Defined.

(* ------------------------------------------------------------------ *)
(** ** Auto-Gain Controller under a constant input *)

Section ConstantInput.

Lemma sum_constant (L : R) (h : list R) :
  Forall (fun x => x = L) h -> Spec.sum h = INR (List.length h) * L.
Proof.
  induction 1 as [|x h Hx _ IH].
  - simpl. lra.
  - cbn [Spec.sum List.length]. rewrite S_INR, IH, Hx. lra.
Qed.

Lemma mean_constant (L : R) (h : list R) :
  Forall (fun x => x = L) h -> h <> [] -> Spec.mean h = L.
Proof.
  intros F NE. unfold Spec.mean. rewrite (sum_constant L h F).
  assert (0 < INR (List.length h)).
  { destruct h; [contradiction|]. apply lt_0_INR. simpl. lia. }
  field. lra.
Qed.

Lemma push_history_constant (L : R) (h : list R) :
  Forall (fun x => x = L) h ->
  Forall (fun x => x = L) (push_history L h) /\ push_history L h <> [].
Proof.
  intros F. unfold push_history, RMS_HISTORY_LEN.
  assert (F' : Forall (fun x => x = L) (h ++ [L]))
    by (apply Forall_app; split; [exact F | repeat constructor]).
  destruct (Nat.ltb_spec 20 (List.length (h ++ [L]))) as [Lt|Ge].
  - destruct (h ++ [L]) as [|o r] eqn:E; [simpl in Lt; lia|].
    cbn [tl]. split; [inversion F'; assumption|].
    destruct r; [simpl in Lt; lia | discriminate].
  - split; [exact F'|]. destruct h; discriminate.
Qed.

Lemma pow_092_bounds (n : nat) : 0 < 0.92 ^ n <= 1.
Proof.
  split; [apply pow_lt; lra|].
  induction n as [|n IH]; simpl; [lra|].
  assert (0 < 0.92 ^ n) by (apply pow_lt; lra). nra.
Qed.

Variables (now : nat -> R) (inBuf outBuf : nat -> list R) (red : nat -> R).
Variable st : State.

Hypothesis has_ctx : is_some (audioCtx st) = true.
Hypothesis has_nodes : is_some (nodes st) = true.
Hypothesis is_enabled : enabled (settings st) = true.
Hypothesis is_auto : autoGain (settings st) = true.
Hypothesis starts_at_zero : autoGainValue st = 0.
Hypothesis starts_empty : rmsHistory st = [].
Hypothesis constant_input :
  forall i, 0.0005 < calcRMS (inBuf i) /\
            meter (inBuf i) = targetLevel (settings st) - 10.

(** After [n] ticks: the script variables of the graph are as before, the
    window holds copies of the one loudness, and the running value is on
    the curve [10 - 10 * 0.92 ^ n]. *)
Lemma constant_input_state (n : nat) :
  settings (ticks n now inBuf outBuf red st) = settings st /\
  audioCtx (ticks n now inBuf outBuf red st) = audioCtx st /\
  nodes (ticks n now inBuf outBuf red st) = nodes st /\
  Forall (fun x => x = targetLevel (settings st) - 10)
         (rmsHistory (ticks n now inBuf outBuf red st)) /\
  autoGainValue (ticks n now inBuf outBuf red st) = 10 - 10 * 0.92 ^ n.
Proof.
  induction n as [|n (Hs & Hc & Hn & F & G)].
  - cbn. rewrite starts_at_zero, starts_empty.
    repeat split; try reflexivity; [constructor | lra].
  - cbn [ticks].
    destruct (tick_vars (now n) (inBuf n) (outBuf n) (red n)
                (ticks n now inBuf outBuf red st)) as (S1 & C1 & N1 & _).
    destruct (constant_input n) as [Loud M].
    destruct (tick_active (now n) (inBuf n) (outBuf n) (red n)
                (ticks n now inBuf outBuf red st)) as [Hh Hg];
      try congruence.
    rewrite Hs in Hg. rewrite M in Hh, Hg.
    destruct (push_history_constant _ _ F) as [F' NE].
    repeat split; try congruence.
    rewrite Hg, average_mean, (mean_constant _ _ F' NE), G.
    pose proof (pow_092_bounds n) as [P0 P1].
    replace (10 - 10 * 0.92 ^ n +
             (targetLevel (settings st) - (targetLevel (settings st) - 10)
              - (10 - 10 * 0.92 ^ n)) * 0.08)
      with (10 - 10 * 0.92 ^ S n) by (simpl; lra).
    pose proof (pow_092_bounds (S n)) as [Q0 Q1].
    rewrite Rmin_right by lra. apply Rmax_right. lra.
Qed.

End ConstantInput.

(** C6.  From [autoGainValue = 0] and an empty window, with processing
    and auto-gain on, ticks whose input is above the silence floor and
    reads [targetLevel - 10] dB give [autoGainValue = 10 - 10 * 0.92 ^ n]
    after [n] ticks: it never decreases, it stays in [[-24, 24]], and it
    comes as close to [+10] as one likes. *)
Theorem constant_input_converges
        (now : nat -> R) (inBuf outBuf : nat -> list R) (red : nat -> R)
        (st : State) :
  is_some (audioCtx st) = true -> is_some (nodes st) = true ->
  enabled (settings st) = true -> autoGain (settings st) = true ->
  autoGainValue st = 0 -> rmsHistory st = [] ->
  (forall i, 0.0005 < calcRMS (inBuf i) /\
             meter (inBuf i) = targetLevel (settings st) - 10) ->
  (forall n, autoGainValue (ticks n now inBuf outBuf red st)
             = 10 - 10 * 0.92 ^ n) /\
  (forall n, autoGainValue (ticks n now inBuf outBuf red st)
             <= autoGainValue (ticks (S n) now inBuf outBuf red st)) /\
  (forall n, -24 <= autoGainValue (ticks n now inBuf outBuf red st) <= 24) /\
  (forall n, autoGainValue (ticks n now inBuf outBuf red st) < 10) /\
  (forall eps, 0 < eps ->
     exists N, forall n, (N <= n)%nat ->
       Rabs (autoGainValue (ticks n now inBuf outBuf red st) - 10) < eps).
Proof.
  intros H1 H2 H3 H4 H5 H6 H7.
  assert (G : forall n, autoGainValue (ticks n now inBuf outBuf red st)
                        = 10 - 10 * 0.92 ^ n).
  { intros n.
    apply (constant_input_state now inBuf outBuf red st H1 H2 H3 H4 H5 H6 H7). }
  split; [exact G|].
  split; [|split; [|split]].
  - intros n. rewrite !G. pose proof (pow_092_bounds n) as [P0 P1].
    simpl. lra.
  - intros n. rewrite G. pose proof (pow_092_bounds n) as [P0 P1]. lra.
  - intros n. rewrite G. pose proof (pow_092_bounds n) as [P0 P1]. lra.
  - intros eps Heps.
    destruct (pow_lt_1_zero 0.92) with (y := eps / 10) as [N HN].
    + rewrite Rabs_pos_eq; lra.
    + lra.
    + exists N. intros n Hn. rewrite G.
      specialize (HN n Hn).
      pose proof (pow_092_bounds n) as [P0 P1].
      rewrite Rabs_pos_eq in HN by lra.
      replace (10 - 10 * 0.92 ^ n - 10) with (- (10 * 0.92 ^ n)) by lra.
      rewrite Rabs_Ropp, Rabs_pos_eq by lra. lra.
Qed.

(** C6, an instance: after the first bind (target [-14] dB) every block
    has rms [10^(-24/20)], that is [-24] dB; two ticks give
    [10 - 10 * 0.92 ^ 2]. *)
Lemma constant_input_converges_witness :
  autoGainValue
    (ticks 2 (fun _ => 0) (fun _ => block (dBtoLinear (-24)))
           (fun _ => block 0) (fun _ => 0) (run first_bind initial))
  = 10 - 10 * 0.92 ^ 2.
Proof.
  assert (P : 0 <= dBtoLinear (-24)) by (apply Rlt_le, dBtoLinear_pos).
  assert (H : forall i : nat,
             0.0005 < calcRMS (block (dBtoLinear (-24))) /\
             meter (block (dBtoLinear (-24)))
             = targetLevel (settings (run first_bind initial)) - 10).
  { intros _. unfold meter. rewrite calcRMS_rms, (rms_block _ P). split.
    - apply dBtoLinear_above_floor. lra.
    - rewrite linearToDB_dBtoLinear.
      change (targetLevel (settings (run first_bind initial))) with (-14).
      lra. }
  exact (proj1 (constant_input_converges
                  (fun _ => 0) (fun _ => block (dBtoLinear (-24)))
                  (fun _ => block 0) (fun _ => 0) (run first_bind initial)
                  eq_refl eq_refl eq_refl eq_refl eq_refl eq_refl H) 2%nat).
Defined.

(* ------------------------------------------------------------------ *)
(** ** Switching auto-gain off *)

Section AutoGainOff.

Lemma updateSettings_effects (now : R) (incoming : Obj.t) (st : State) :
  autoGainValue (fst (onMessage now (UpdateSettings incoming) st)) =
    autoGainValue
      (caught (applySettingsToNodes now
         (saveSettings
            (with_settings (mergeSettings incoming (settings st)) st)))) /\
  calls (world (fst (onMessage now (UpdateSettings incoming) st))) =
    calls (world
      (caught (applySettingsToNodes now
         (saveSettings
            (with_settings (mergeSettings incoming (settings st)) st))))).
Proof.
  cbn. rewrite fst_answer.
  destruct (tail_vars now
              (fun x => match Obj.enabled incoming with
                        | None => Done x
                        | Some true => connectProcessing x
                        | Some false => connectBypass x
                        end)
              (saveSettings (with_settings
                               (mergeSettings incoming (settings st)) st))
              (route_rewired (Obj.enabled incoming)))
    as (_ & _ & G & _ & _ & C).
  split; assumption.
Qed.

End AutoGainOff.

(** The state after the first bind, evaluated. *)
Lemma first_bind_state :
  is_some (audioCtx (run first_bind initial)) = true /\
  is_some (nodes (run first_bind initial)) = true /\
  is_some (metering (run first_bind initial)) = true /\
  settings (run first_bind initial) = DEFAULT_SETTINGS /\
  autoGainValue (run first_bind initial) = 0 /\
  rmsHistory (run first_bind initial) = [].
Proof. repeat split; reflexivity. Qed.

(** C4, counterexample.  After a bind, one tick on a full-scale block
    puts its loudness into the window; the update
    [{ autoGain: false }] then leaves the window as it is. *)
Lemma auto_gain_off_keeps_window :
  autoGain (settings (run auto_gain_off_run initial)) = false /\
  rmsHistory (run auto_gain_off_run initial) = [meter (block 1)] /\
  rmsHistory (run auto_gain_off_run initial) <> [].
Proof.
  destruct first_bind_state as (B1 & B2 & B3 & B4 & B5 & B6).
  assert (E : run auto_gain_off_run initial =
              step (Message 0 (UpdateSettings (only_autoGain false)))
                   (step (Tick 0 (block 1) (block 1) 0) (run first_bind initial))).
  { unfold auto_gain_off_run. rewrite run_app. exact (run_two _ _ _). }
  assert (H : rmsHistory (run auto_gain_off_run initial) = [meter (block 1)]).
  { rewrite E. unfold step at 1.
    destruct (onMessage_vars 0 (UpdateSettings (only_autoGain false))
                (step (Tick 0 (block 1) (block 1) 0) (run first_bind initial)))
      as (_ & (_ & _ & _ & _ & _ & U) & _).
    rewrite U. unfold step. rewrite B3.
    assert (L : 0.0005 < calcRMS (block 1))
      by (rewrite calcRMS_rms, rms_block; lra).
    assert (En : enabled (settings (run first_bind initial)) = true)
      by (rewrite B4; reflexivity).
    assert (Au : autoGain (settings (run first_bind initial)) = true)
      by (rewrite B4; reflexivity).
    destruct (tick_active 0 (block 1) (block 1) 0 (run first_bind initial) B1 B2 En Au L)
      as [Hh _].
    rewrite Hh, B6. reflexivity. }
  split; [|split; [exact H | rewrite H; discriminate]].
  rewrite E, !step_settings, B4. reflexivity.
Qed.

(** C4, as the code has it.  In a state of a run that has a stage set, an
    [updateSettings] after which auto-gain is off resets the running
    auto-gain value to [0] and, after the store write and the eight
    parameter writes, calls [setTargetAtTime(1, now, 0.05)] on the gain of
    the auto-gain stage; the rolling window is left as it is. *)
Theorem auto_gain_off_resets_value_and_ramps
        (stored : option Obj.t) (es : list Event) (st : State)
        (now : R) (incoming : Obj.t) (n : N.set) :
  st = run es (loadSettings stored initial) ->
  nodes st = Some n ->
  autoGain (mergeSettings incoming (settings st)) = false ->
  autoGainValue (fst (onMessage now (UpdateSettings incoming) st)) = 0 /\
  rmsHistory (fst (onMessage now (UpdateSettings incoming) st))
    = rmsHistory st /\
  calls (world (fst (onMessage now (UpdateSettings incoming) st))) =
    calls (world st) ++
    [StorageSet (mergeSettings incoming (settings st))] ++
    parameter_calls n (mergeSettings incoming (settings st)) ++
    [SetTargetAtTime (N.autoGain n) PGain 1 now 0.05].
Proof.
  intros Hrun Hn Hoff.
  assert (W : wired st)
    by (rewrite Hrun; apply run_wired, loadSettings_wired).
  destruct W as [W1 _].
  assert (Hc : exists c, audioCtx st = Some c).
  { rewrite Hn in W1. specialize (W1 eq_refl).
    destruct (audioCtx st) as [c|]; [exists c; reflexivity | discriminate]. }
  destruct Hc as [c Hc].
  destruct (updateSettings_effects now incoming st) as [G C].
  destruct (onMessage_vars now (UpdateSettings incoming) st)
    as (_ & (_ & _ & _ & _ & _ & U) & _).
  split; [|split; [exact U|]].
  - rewrite G, applySettingsToNodes_autoGainValue. cbn.
    rewrite Hn, Hoff. reflexivity.
  - rewrite C.
    rewrite (applySettingsToNodes_calls now _ n c) by (cbn; assumption).
    cbn [saveSettings]. cbn. rewrite Hoff, <- app_assoc. reflexivity.
Qed.

(** C4, an instance: [{ autoGain: false }] right after the first bind. *)
Lemma auto_gain_off_resets_value_and_ramps_witness :
  autoGainValue (fst (onMessage 5 (UpdateSettings (only_autoGain false))
                                (run first_bind initial))) = 0 /\
  rmsHistory (fst (onMessage 5 (UpdateSettings (only_autoGain false))
                             (run first_bind initial)))
    = rmsHistory (run first_bind initial).
Proof.
  destruct (auto_gain_off_resets_value_and_ramps
              None first_bind (run first_bind initial) 5
              (only_autoGain false) (N.mk 1 2 3 4 5 6 7 8)%nat
              eq_refl eq_refl eq_refl) as (G & H & _).
  split; [exact G | exact H].
Defined.

(* ------------------------------------------------------------------ *)
(** ** Signal Graph: binding a source *)

(** C8, the code on a rebind.  The first bind wires the stage set 1..8
    into the destination 0; binding a second video stores the stage set
    10..17 and wires it, and every connection of the first set, its path
    into the destination included, is still live. *)
Theorem rebind_leaves_previous_connections :
  nodes (run first_bind initial) = Some (N.mk 1 2 3 4 5 6 7 8)%nat /\
  edges (world (run first_bind initial)) =
    [(1, 2); (2, 3); (3, 4); (4, 5); (5, 6); (6, 7); (7, 8); (8, 0)]%nat /\
  currentVideo (run rebind_run initial) = Some 1%nat /\
  nodes (run rebind_run initial) = Some (N.mk 10 11 12 13 14 15 16 17)%nat /\
  edges (world (run rebind_run initial)) =
    [(1, 2); (2, 3); (3, 4); (4, 5); (5, 6); (6, 7); (7, 8); (8, 0);
     (10, 11); (11, 12); (12, 13); (13, 14); (14, 15); (15, 16); (16, 17);
     (17, 0)]%nat /\
  incl (edges (world (run first_bind initial)))
       (edges (world (run rebind_run initial))).
Proof.
  assert (E1 : edges (world (run first_bind initial)) =
    [(1, 2); (2, 3); (3, 4); (4, 5); (5, 6); (6, 7); (7, 8); (8, 0)]%nat)
    by reflexivity.
  assert (E2 : edges (world (run rebind_run initial)) =
    [(1, 2); (2, 3); (3, 4); (4, 5); (5, 6); (6, 7); (7, 8); (8, 0);
     (10, 11); (11, 12); (12, 13); (13, 14); (14, 15); (15, 16); (16, 17);
     (17, 0)]%nat) by reflexivity.
  split; [reflexivity|]. split; [exact E1|]. split; [reflexivity|].
  split; [reflexivity|]. split; [exact E2|].
  rewrite E1, E2. intros e H.
  apply in_or_app with (l := [(1, 2); (2, 3); (3, 4); (4, 5); (5, 6); (6, 7);
                               (7, 8); (8, 0)]%nat).
  left. exact H.
Qed.

Section FailedBind.

Lemma appends_refl (st : State) : appends st st.
Proof. exists []. rewrite app_nil_r. reflexivity. Qed.

Lemma appends_trans (a b c : State) :
  appends a b -> appends b c -> appends a c.
Proof.
  intros [r1 H1] [r2 H2]. exists (r1 ++ r2).
  rewrite H2, H1, app_assoc. reflexivity.
Qed.

Lemma call_appends (c : Call) (st : State) : appends st (call c st).
Proof. exists [c]. reflexivity. Qed.

Lemma rewired_appends (st st' : State) : rewired st st' -> appends st st'.
Proof.
  intros H. destruct (rewired_vars _ _ H) as (_ & _ & C & _).
  exists []. rewrite app_nil_r. exact C.
Qed.

Lemma startMetering_appends (st : State) : appends st (startMetering st).
Proof.
  unfold startMetering, appends.
  destruct st as [s c n v [m|] g l h w]; cbn; eexists;
    try rewrite <- app_assoc; reflexivity.
Qed.

Lemma createStages_appends (source : NodeId) (st : State) :
  appends st (createStages source st).
Proof.
  unfold appends. destruct st as [s c n v m g l h w]; cbn.
  repeat rewrite <- app_assoc. eexists. reflexivity.
Qed.

Lemma caught_andThen_appends (st : State) (o : Outcome)
      (k : State -> Outcome) :
  appends st (caught o) -> (forall x, appends x (caught (k x))) ->
  appends st (caught (andThen o k)).
Proof.
  intros Ho Hk. destruct o as [x|x]; cbn in *; [|exact Ho].
  eapply appends_trans; [exact Ho | apply Hk].
Qed.

Lemma activate_appends (now : R) (st : State) :
  appends st (caught (activate now st)).
Proof.
  unfold activate. apply caught_andThen_appends.
  - apply applySettingsToNodes_appends.
  - intros x. apply caught_andThen_appends.
    + apply rewired_appends, route_enabled_rewired.
    + intros y. unfold caught.
      eapply appends_trans; [|apply startMetering_appends].
      destruct (audioCtx y) as [c|]; [|apply appends_refl].
      destruct (ctxState c); try apply appends_refl. apply call_appends.
Qed.

Lemma createMediaElementSource_tapped (w w' : World) (v : Video) :
  tapped w' = tapped w ->
  createMediaElementSource w v = None ->
  createMediaElementSource w' v = None.
Proof.
  unfold createMediaElementSource. intros ->.
  destruct (existsb (Nat.eqb v) (tapped w)); [reflexivity | discriminate].
Qed.

Lemma createMediaElementSource_some (w0 w : World) (v : Video)
      (src : NodeId) :
  createMediaElementSource w0 v = Some (src, w) ->
  src = fresh w0 /\ tapped w = v :: tapped w0 /\ edges w = edges w0 /\
  fresh w = S (fresh w0) /\ calls w = calls w0.
Proof.
  unfold createMediaElementSource.
  destruct (existsb (Nat.eqb v) (tapped w0)); [discriminate|].
  intros H. inversion H. subst. repeat split; reflexivity.
Qed.

(** What [buildGraph] does when the tap throws. *)
Lemma buildGraph_tap_throws (now : R) (boot : CtxState) (v : Video)
      (st : State) :
  same_video (currentVideo st) v && is_some (audioCtx st) = false ->
  createMediaElementSource (world st) v = None ->
  buildGraph now boot v st =
  call (CreateSource v false)
       (ensureContext boot (with_currentVideo (Some v) st)).
Proof.
  intros A T. unfold buildGraph. rewrite A. cbv zeta.
  rewrite (createMediaElementSource_tapped (world st)); trivial.
  destruct (ensureContext_vars boot (with_currentVideo (Some v) st))
    as (_ & _ & _ & _ & _ & _ & _ & Tp & _).
  exact Tp.
Qed.

(** A bind that is not skipped records the video and calls
    [createMediaElementSource] on it. *)
Lemma buildGraph_attempt (now : R) (boot : CtxState) (v : Video)
      (st : State) :
  same_video (currentVideo st) v && is_some (audioCtx st) = false ->
  currentVideo (buildGraph now boot v st) = Some v /\
  exists ok rest,
    calls (world (buildGraph now boot v st)) =
    calls (world st) ++ CreateSource v ok :: rest.
Proof.
  intros A. unfold buildGraph. rewrite A. cbv zeta.
  destruct (ensureContext_vars boot (with_currentVideo (Some v) st))
    as (_ & _ & V & _ & _ & _ & _ & _ & _ & C & _).
  destruct (createMediaElementSource _ v) as [[src w]|] eqn:Tap.
  - apply createMediaElementSource_some in Tap.
    destruct Tap as (_ & _ & _ & _ & Cw).
    match goal with |- context [activate now (createStages src ?x)] =>
      destruct (activate_vars now (createStages src x)) as (_ & _ & _ & V1 & _);
      destruct (createStages_vars src x) as (_ & _ & V2 & _);
      destruct (activate_appends now (createStages src x)) as [r1 R1];
      destruct (createStages_appends src x) as [r2 R2]
    end.
    split.
    + rewrite V1, V2. exact V.
    + exists true, (r2 ++ r1).
      rewrite R1, R2.
      change (calls (world (call (CreateSource v true)
                (with_world w
                   (ensureContext boot (with_currentVideo (Some v) st))))))
        with (calls w ++ [CreateSource v true]).
      rewrite Cw, C. cbn.
      rewrite <- !app_assoc. reflexivity.
  - split; [exact V|]. exists false, []. cbn. rewrite C. reflexivity.
Qed.

Lemma same_video_refl (v : Video) : same_video (Some v) v = true.
Proof. apply Nat.eqb_refl. Qed.

(** Once a video is recorded and a context exists, the events that bring
    no other video leave both in place. *)
Lemma stays_recorded (v : Video) (es : list Event) (st : State) :
  currentVideo st = Some v -> is_some (audioCtx st) = true ->
  Forall (only_source v) es ->
  currentVideo (run es st) = Some v /\
  is_some (audioCtx (run es st)) = true /\
  nodes (run es st) = nodes st /\
  tapped (world (run es st)) = tapped (world st).
Proof.
  intros V C F. revert st V C.
  induction F as [|e es He _ IH]; intros st V C; [repeat split; assumption|].
  cbn [run fold_left]. fold (run es (step e st)).
  assert (K : currentVideo (step e st) = Some v /\
              audioCtx (step e st) = audioCtx st /\
              nodes (step e st) = nodes st /\
              tapped (world (step e st)) = tapped (world st)).
  { destruct e as [now msg|now i o r|now boot found rs|now boot v'];
      unfold step, tryAttach.
    - destruct (onMessage_vars now msg st)
        as (_ & (U1 & U2 & U3 & _) & T & _).
      rewrite U1, U2, U3, T. repeat split; trivial.
    - destruct (is_some (metering st)); [|repeat split; trivial].
      destruct (tick_vars now i o r st) as (_ & T1 & T2 & T3 & _ & _ & T6).
      rewrite T1, T2, T3, T6. repeat split; trivial.
    - destruct He as [-> | ->]; [repeat split; trivial|].
      rewrite V, same_video_refl. repeat split; trivial.
    - cbn in He. subst v'. unfold buildGraph.
      rewrite V, same_video_refl, C. repeat split; trivial. }
  destruct K as (K1 & K2 & K3 & K4).
  destruct (IH (step e st) K1) as (I1 & I2 & I3 & I4).
  - rewrite K2. exact C.
  - repeat split; congruence.
Qed.

Lemma buildGraph_tap_throws_calls (now : R) (boot : CtxState) (v : Video)
      (st : State) :
  same_video (currentVideo st) v && is_some (audioCtx st) = false ->
  createMediaElementSource (world st) v = None ->
  calls (world (buildGraph now boot v st))
  = calls (world st) ++ [CreateSource v false].
Proof.
  intros A T. rewrite (buildGraph_tap_throws now boot v st A T).
  destruct (ensureContext_vars boot (with_currentVideo (Some v) st))
    as (_ & _ & _ & _ & _ & _ & _ & _ & _ & Cx & _).
  cbn. rewrite Cx. reflexivity.
Qed.

(** An element that owns a tap keeps it through every bind. *)
Lemma buildGraph_keeps_taps (now : R) (boot : CtxState) (v v' : Video)
      (st : State) :
  createMediaElementSource (world st) v = None ->
  createMediaElementSource (world (buildGraph now boot v' st)) v = None.
Proof.
  assert (K : forall w, createMediaElementSource w v = None <->
                        existsb (Nat.eqb v) (tapped w) = true).
  { intros w. unfold createMediaElementSource.
    destruct (existsb (Nat.eqb v) (tapped w)); split; intros H;
      first [reflexivity | discriminate]. }
  intros T. apply K in T. apply K. unfold buildGraph.
  destruct (same_video (currentVideo st) v' && is_some (audioCtx st));
    [exact T|].
  cbv zeta.
  destruct (ensureContext_vars boot (with_currentVideo (Some v') st))
    as (_ & _ & _ & _ & _ & _ & _ & Tp & _).
  destruct (createMediaElementSource _ v') as [[src w]|] eqn:Tap.
  - apply createMediaElementSource_some in Tap.
    destruct Tap as (_ & Tw & _).
    match goal with |- context [activate now (createStages src ?x)] =>
      destruct (activate_vars now (createStages src x)) as (_ & _ & _ & _ & A);
      destruct (createStages_vars src x) as (_ & _ & _ & _ & B & _)
    end.
    rewrite A, B.
    change (existsb (Nat.eqb v) (tapped w) = true).
    rewrite Tw, Tp. cbn [existsb].
    change (tapped (world (with_currentVideo (Some v') st)))
      with (tapped (world st)).
    rewrite T. apply orb_true_r.
  - change (existsb (Nat.eqb v)
              (tapped (world (ensureContext boot
                                (with_currentVideo (Some v') st)))) = true).
    rewrite Tp. exact T.
Qed.

(** After a failed bind of [v], a bind of another video takes its place as
    the current one, and the next bind of [v] is not skipped: it calls
    [createMediaElementSource] again, which throws again. *)
Lemma retried_after_another_video
      (now now' now'' : R) (boot boot' boot'' : CtxState) (v v' : Video)
      (st : State) :
  same_video (currentVideo st) v && is_some (audioCtx st) = false ->
  createMediaElementSource (world st) v = None ->
  v' <> v ->
  currentVideo (buildGraph now' boot' v' (buildGraph now boot v st))
    = Some v' /\
  currentVideo
    (buildGraph now'' boot'' v
       (buildGraph now' boot' v' (buildGraph now boot v st))) = Some v /\
  calls (world
    (buildGraph now'' boot'' v
       (buildGraph now' boot' v' (buildGraph now boot v st))))
  = calls (world (buildGraph now' boot' v' (buildGraph now boot v st)))
    ++ [CreateSource v false].
Proof.
  intros A T D.
  assert (V1 : currentVideo (buildGraph now boot v st) = Some v)
    by (apply buildGraph_attempt, A).
  assert (A1 : same_video (currentVideo (buildGraph now boot v st)) v'
               && is_some (audioCtx (buildGraph now boot v st)) = false).
  { rewrite V1. cbn. destruct (Nat.eqb_spec v v') as [E|_]; [|reflexivity].
    exfalso. apply D. symmetry. exact E. }
  destruct (buildGraph_attempt now' boot' v' _ A1) as [V2 _].
  set (st2 := buildGraph now' boot' v' (buildGraph now boot v st)) in *.
  assert (A2 : same_video (currentVideo st2) v && is_some (audioCtx st2)
               = false).
  { rewrite V2. cbn. destruct (Nat.eqb_spec v' v) as [E|_]; [|reflexivity].
    exfalso. apply D. exact E. }
  assert (T2 : createMediaElementSource (world st2) v = None)
    by (unfold st2; do 2 apply buildGraph_keeps_taps; exact T).
  split; [exact V2|].
  split; [apply buildGraph_attempt, A2|].
  exact (buildGraph_tap_throws_calls now'' boot'' v st2 A2 T2).
Qed.

Lemma run_canplay (es : list Event) (now : R) (boot : CtxState) (v : Video)
      (st : State) :
  run (es ++ [Canplay now boot v]) st = buildGraph now boot v (run es st).
Proof. rewrite run_snoc. reflexivity. Qed.

(** A state is not the one with a further call in its log. *)
Lemma longer_log_differs (st st' : State) (c : Call) :
  calls (world st') = calls (world st) ++ [c] -> st' <> st.
Proof.
  intros H E. rewrite E in H.
  apply (f_equal (@List.length Call)) in H.
  rewrite length_app in H. simpl in H. lia.
Qed.

End FailedBind.

(** C10, counterexample.  Both videos own a tap.  The bind of video 0
    fails and leaves video 0 recorded; then video 1 is bound and takes its
    place.  The next bind of video 0, by [buildGraph] or by [tryAttach], is
    not skipped: it calls [createMediaElementSource] on video 0 once more
    and the state is not the one before. *)
Lemma failed_bind_is_retried_after_another_video :
  currentVideo (run failed_bind_run initial) = Some 0%nat /\
  calls (world (run failed_bind_run initial))
    = calls (world (run rebind_run initial)) ++ [CreateSource 0%nat false] /\
  currentVideo (run other_bind_run initial) = Some 1%nat /\
  calls (world (buildGraph 4 running 0%nat (run other_bind_run initial)))
    = calls (world (run other_bind_run initial))
      ++ [CreateSource 0%nat false] /\
  buildGraph 4 running 0%nat (run other_bind_run initial)
    <> run other_bind_run initial /\
  tryAttach 4 running (Some 0%nat) 4 (run other_bind_run initial)
    <> run other_bind_run initial.
Proof.
  assert (A : same_video (currentVideo (run rebind_run initial)) 0%nat
              && is_some (audioCtx (run rebind_run initial)) = false)
    by reflexivity.
  assert (T : createMediaElementSource (world (run rebind_run initial)) 0%nat
              = None) by reflexivity.
  assert (D : 1%nat <> 0%nat) by discriminate.
  assert (E1 : run failed_bind_run initial
               = buildGraph 2 running 0%nat (run rebind_run initial))
    by (unfold failed_bind_run; apply run_canplay).
  assert (E2 : run other_bind_run initial
               = buildGraph 3 running 1%nat (run failed_bind_run initial))
    by (unfold other_bind_run at 1; apply run_canplay).
  destruct (retried_after_another_video 2 3 4 running running running
              0%nat 1%nat (run rebind_run initial) A T D) as (V2 & _ & C3).
  rewrite <- E1 in V2, C3. rewrite <- E2 in V2, C3.
  assert (N : buildGraph 4 running 0%nat (run other_bind_run initial)
              <> run other_bind_run initial)
    by (exact (longer_log_differs _ _ _ C3)).
  split.
  { rewrite E1. apply buildGraph_attempt, A. }
  split.
  { rewrite E1. exact (buildGraph_tap_throws_calls 2 running 0%nat _ A T). }
  split; [exact V2|]. split; [exact C3|]. split; [exact N|].
  unfold tryAttach. rewrite V2. exact N.
Qed.

(** C10.  When a bind is attempted and [createMediaElementSource] throws,
    the video is recorded as [currentVideo] all the same and no stage set
    is built for it.  From then on, as long as the events in between bring
    no other video (messages, ticks, attach attempts and [canplay] events
    for this video), [buildGraph] and [tryAttach] on this video return the
    state as it is.  A bind of another video records that video and calls
    [createMediaElementSource] on it; after it the next bind of the first
    video is not skipped but calls [createMediaElementSource] again, which
    throws again. *)
Theorem failed_bind_is_remembered
        (now : R) (boot : CtxState) (v : Video) (st : State) :
  same_video (currentVideo st) v && is_some (audioCtx st) = false ->
  createMediaElementSource (world st) v = None ->
  currentVideo (buildGraph now boot v st) = Some v /\
  nodes (buildGraph now boot v st) = nodes st /\
  edges (world (buildGraph now boot v st)) = edges (world st) /\
  calls (world (buildGraph now boot v st))
    = calls (world st) ++ [CreateSource v false] /\
  (forall es now' boot', Forall (only_source v) es ->
     buildGraph now' boot' v (run es (buildGraph now boot v st))
       = run es (buildGraph now boot v st) /\
     (forall rs, tryAttach now' boot' (Some v) rs
                   (run es (buildGraph now boot v st))
                 = run es (buildGraph now boot v st)) /\
     nodes (run es (buildGraph now boot v st)) = nodes st) /\
  (forall now' boot' v', v' <> v ->
     currentVideo (buildGraph now' boot' v' (buildGraph now boot v st))
       = Some v' /\
     (exists ok rest,
        calls (world (buildGraph now' boot' v' (buildGraph now boot v st)))
        = calls (world (buildGraph now boot v st))
          ++ CreateSource v' ok :: rest) /\
     (forall now'' boot'',
        currentVideo
          (buildGraph now'' boot'' v
             (buildGraph now' boot' v' (buildGraph now boot v st)))
        = Some v /\
        calls (world
          (buildGraph now'' boot'' v
             (buildGraph now' boot' v' (buildGraph now boot v st))))
        = calls (world (buildGraph now' boot' v' (buildGraph now boot v st)))
          ++ [CreateSource v false])).
Proof.
  intros A T.
  assert (R : forall now' boot' v' now'' boot'', v' <> v ->
     currentVideo
       (buildGraph now'' boot'' v
          (buildGraph now' boot' v' (buildGraph now boot v st)))
     = Some v /\
     calls (world
       (buildGraph now'' boot'' v
          (buildGraph now' boot' v' (buildGraph now boot v st))))
     = calls (world (buildGraph now' boot' v' (buildGraph now boot v st)))
       ++ [CreateSource v false]).
  { intros now' boot' v' now'' boot'' D.
    exact (proj2 (retried_after_another_video now now' now'' boot boot' boot''
                    v v' st A T D)). }
  revert R. rewrite (buildGraph_tap_throws now boot v st A T). intros R.
  destruct (ensureContext_vars boot (with_currentVideo (Some v) st))
    as (_ & Nx & Vx & _ & _ & _ & _ & _ & Ex & Cx & Ax).
  set (st1 := call (CreateSource v false)
                   (ensureContext boot (with_currentVideo (Some v) st))).
  assert (V1 : currentVideo st1 = Some v) by exact Vx.
  assert (C1 : is_some (audioCtx st1) = true) by exact Ax.
  assert (N1 : nodes st1 = nodes st) by exact Nx.
  split; [exact V1|]. split; [exact N1|]. split; [exact Ex|].
  split; [unfold st1; cbn; rewrite Cx; reflexivity|].
  split.
  - intros es now' boot' F.
    destruct (stays_recorded v es st1 V1 C1 F) as (V2 & C2 & N2 & _).
    split; [|split].
    + unfold buildGraph. rewrite V2, same_video_refl, C2. reflexivity.
    + intros rs. unfold tryAttach. rewrite V2, same_video_refl. reflexivity.
    + rewrite N2. exact N1.
  - intros now' boot' v' D.
    assert (B : currentVideo (buildGraph now' boot' v' st1) = Some v' /\
                exists ok rest,
                  calls (world (buildGraph now' boot' v' st1))
                  = calls (world st1) ++ CreateSource v' ok :: rest).
    { apply buildGraph_attempt.
      rewrite V1. cbn. destruct (Nat.eqb_spec v v') as [E|_]; [|reflexivity].
      exfalso. apply D. symmetry. exact E. }
    destruct B as [B1 B2].
    split; [exact B1|]. split; [exact B2|].
    intros now'' boot''. exact (R now' boot' v' now'' boot'' D).
Qed.

(** C10, an instance: videos 0 and 1 have been bound, so video 0 owns a
    tap and binding it again fails; the next bind of video 0 returns at
    once. *)
Lemma failed_bind_is_remembered_witness :
  currentVideo (buildGraph 2 running 0%nat (run rebind_run initial))
    = Some 0%nat /\
  nodes (buildGraph 2 running 0%nat (run rebind_run initial))
    = nodes (run rebind_run initial) /\
  buildGraph 3 running 0%nat
             (run [] (buildGraph 2 running 0%nat (run rebind_run initial)))
    = run [] (buildGraph 2 running 0%nat (run rebind_run initial)).
Proof.
  destruct (failed_bind_is_remembered 2 running 0%nat (run rebind_run initial)
              eq_refl eq_refl) as (H1 & H2 & _ & _ & H5 & _).
  split; [exact H1|]. split; [exact H2|].
  exact (proj1 (H5 [] 3 running (Forall_nil _))).
Defined.

(* ================================================================== *)
(** * Further properties of the code *)

(* ------------------------------------------------------------------ *)
(** ** Decibel conversions and the Level Meter *)

Section Decibels.

Lemma dBtoLinear_increasing (a b : R) : a < b -> dBtoLinear a < dBtoLinear b.
Proof. intros H. unfold dBtoLinear. apply Rpower_lt; lra. Qed.

Lemma dBtoLinear_monotone (a b : R) : a <= b -> dBtoLinear a <= dBtoLinear b.
Proof.
  intros [H | ->]; [left; apply dBtoLinear_increasing, H | right; reflexivity].
Qed.

Lemma dBtoLinear_0 : dBtoLinear 0 = 1.
Proof.
  unfold dBtoLinear. replace (0 / 20) with 0 by lra. apply Rpower_O. lra.
Qed.

Lemma sum_squares_nonneg (b : list R) : 0 <= Spec.sum_squares b.
Proof. induction b as [|x b IH]; simpl; [lra | nra]. Qed.

Lemma sum_squares_peak (p : R) (b : list R) :
  Forall (fun x => Rabs x <= p) b ->
  Spec.sum_squares b <= INR (List.length b) * (p * p).
Proof.
  induction 1 as [|x b Hx _ IH].
  - simpl. lra.
  - cbn [Spec.sum_squares List.length]. rewrite S_INR.
    assert (x * x <= p * p).
    { unfold Rabs in Hx. destruct (Rcase_abs x); nra. }
    lra.
Qed.

End Decibels.

(** X2.  On a non-empty block whose samples lie in the nominal range
    [[-1, 1]], [calcRMS] lies between 0 and 1 and the Level Meter never
    reads above 0 dB. *)
Theorem level_at_most_full_scale (buffer : list R) :
  buffer <> [] ->
  Forall (fun x => Rabs x <= 1) buffer ->
  0 <= calcRMS buffer <= 1 /\ meter buffer <= 0.
Proof.
  intros NE F.
  assert (Hn : 0 < INR (List.length buffer)).
  { destruct buffer; [contradiction|]. apply lt_0_INR. simpl. lia. }
  assert (B : 0 <= calcRMS buffer <= 1).
  { rewrite calcRMS_rms. unfold Spec.rms. split; [apply sqrt_pos|].
    apply Rle_trans with (sqrt 1); [|rewrite sqrt_1; lra].
    apply sqrt_le_1_alt.
    pose proof (sum_squares_peak 1 buffer F) as S.
    apply (Rmult_le_reg_r (INR (List.length buffer))); [exact Hn|].
    replace (Spec.sum_squares buffer / INR (List.length buffer)
             * INR (List.length buffer))
      with (Spec.sum_squares buffer) by (field; lra).
    lra. }
  split; [exact B|].
  rewrite calcRMS_rms in B.
  destruct (Req_dec_T (Spec.rms buffer) 0) as [Z|NZ].
  - rewrite meter_at_zero by exact Z. lra.
  - rewrite meter_off_zero by exact NZ.
    pose proof ln10_pos as L.
    assert (ln (Spec.rms buffer) <= 0).
    { rewrite <- ln_1. destruct (Req_dec_T (Spec.rms buffer) 1) as [->|N1];
        [lra|]. left. apply ln_increasing; lra. }
    unfold log10.
    assert (ln (Spec.rms buffer) / ln 10 <= 0).
    { apply (Rmult_le_reg_r (ln 10)); [exact L|].
      replace (ln (Spec.rms buffer) / ln 10 * ln 10)
        with (ln (Spec.rms buffer)) by (field; lra).
      lra. }
    lra.
Qed.

(** X2, an instance: a full-scale block reads 0 dB at most. *)
Lemma level_at_most_full_scale_witness :
  0 <= calcRMS (block 1) <= 1 /\ meter (block 1) <= 0.
Proof.
  assert (F : Forall (fun x => Rabs x <= 1) (block 1)).
  { apply Forall_forall. intros y H. apply repeat_spec in H. subst y.
    rewrite Rabs_R1. lra. }
  exact (level_at_most_full_scale (block 1) (block_not_empty 1) F).
Defined.

(* ------------------------------------------------------------------ *)
(** ** When the helpers complete and when they throw *)

Section Outcomes.

Lemma connect_vars (a b : NodeId) (x : State) :
  audioCtx (connect a b x) = audioCtx x /\ nodes (connect a b x) = nodes x.
Proof.
  destruct (rewired_vars _ _ (connect_rewired a b x))
    as (_ & _ & _ & _ & _ & U).
  split; apply U.
Qed.

Lemma disconnectAll_vars (x : State) :
  audioCtx (disconnectAll x) = audioCtx x /\
  nodes (disconnectAll x) = nodes x.
Proof.
  destruct (rewired_vars _ _ (disconnectAll_rewired x))
    as (_ & _ & _ & _ & _ & U).
  split; apply U.
Qed.

Lemma applySettingsToNodes_done (now : R) (st : State) :
  (is_some (nodes st) = true -> is_some (audioCtx st) = true) ->
  applySettingsToNodes now st = Done (caught (applySettingsToNodes now st)).
Proof.
  unfold applySettingsToNodes.
  destruct st as [s [c|] [n|] v m g l h w]; cbn; intros H;
    try reflexivity; try (destruct (autoGain s); reflexivity).
  specialize (H eq_refl). discriminate.
Qed.

Lemma connectProcessing_outcome (st : State) :
  connectProcessing st =
  if is_some (nodes st) && is_some (audioCtx st)
  then Done (caught (connectProcessing st))
  else Thrown (caught (connectProcessing st)).
Proof.
  unfold connectProcessing. cbv zeta.
  destruct (disconnectAll_vars st) as [A N].
  rewrite N. destruct (nodes st) as [n|]; [|reflexivity].
  repeat match goal with
         | |- context [audioCtx (connect ?a ?b ?x)] =>
             rewrite (proj1 (connect_vars a b x))
         end.
  rewrite A. destruct (audioCtx st); cbn [is_some andb caught]; reflexivity.
Qed.

Lemma connectBypass_outcome (st : State) :
  connectBypass st =
  if is_some (nodes st) && is_some (audioCtx st)
  then Done (caught (connectBypass st))
  else Thrown (caught (connectBypass st)).
Proof.
  unfold connectBypass. cbv zeta.
  destruct (disconnectAll_vars st) as [A N].
  rewrite N, A.
  destruct (nodes st), (audioCtx st); cbn [is_some andb caught]; reflexivity.
Qed.

(** With a context and a stage set, the tail of [buildGraph] runs to its
    end: the interval is started. *)
Lemma activate_meters (now : R) (st : State) :
  is_some (audioCtx st) = true -> is_some (nodes st) = true ->
  exists y, activate now st = Done (startMetering y).
Proof.
  intros C N. unfold activate.
  rewrite applySettingsToNodes_done by (intros _; exact C).
  destruct (applySettingsToNodes_untouched now st) as (U1 & U2 & _).
  set (x := caught (applySettingsToNodes now st)) in *.
  cbn [andThen].
  assert (Hx : is_some (nodes x) && is_some (audioCtx x) = true)
    by (rewrite U1, U2, C, N; reflexivity).
  destruct (enabled (settings x)).
  - rewrite connectProcessing_outcome, Hx. cbn [andThen]. eexists. reflexivity.
  - rewrite connectBypass_outcome, Hx. cbn [andThen]. eexists. reflexivity.
Qed.

End Outcomes.

(* ------------------------------------------------------------------ *)
(** ** An induction principle for runs

    Every event is a composition of a few primitive state changes; a
    property kept by each of them holds in every state of a run. *)

Section RunPrinciple.

Variable J : State -> Prop.

Hypothesis J_settings : forall s x, J x -> J (with_settings s x).
Hypothesis J_call : forall c x, quiet_call c -> J x -> J (call c x).
Hypothesis J_apply :
  forall now x, J x -> J (caught (applySettingsToNodes now x)).
Hypothesis J_processing : forall x, J x -> J (caught (connectProcessing x)).
Hypothesis J_bypass : forall x, J x -> J (caught (connectBypass x)).
Hypothesis J_tick : forall now i o r x, J x -> J (tick now i o r x).
Hypothesis J_video : forall v x, J x -> J (with_currentVideo v x).
Hypothesis J_context : forall boot x, J x -> J (ensureContext boot x).
Hypothesis J_stages :
  forall x v src w,
    createMediaElementSource (world x) v = Some (src, w) ->
    J x -> J (createStages src (call (CreateSource v true) (with_world w x))).
Hypothesis J_metering : forall x, J x -> J (startMetering x).

Lemma tail_preserves (now : R) (k : State -> Outcome) (x : State) :
  (forall y, J y -> J (caught (k y))) ->
  J x -> J (caught (andThen (applySettingsToNodes now x) k)).
Proof.
  intros Hk Hx. pose proof (J_apply now x Hx) as Ha.
  destruct (applySettingsToNodes now x) as [y|y]; cbn in *; [|exact Ha].
  apply Hk, Ha.
Qed.

Lemma route_preserves (b : option bool) (y : State) :
  J y -> J (caught (match b with
                    | None => Done y
                    | Some true => connectProcessing y
                    | Some false => connectBypass y
                    end)).
Proof.
  intros H. destruct b as [[|]|]; [apply J_processing | apply J_bypass|];
    exact H.
Qed.

Lemma route_enabled_preserves (y : State) :
  J y -> J (caught (if enabled (settings y) then connectProcessing y
                    else connectBypass y)).
Proof.
  intros H. destruct (enabled (settings y));
    [apply J_processing | apply J_bypass]; exact H.
Qed.

Lemma onMessage_preserves (now : R) (msg : Msg) (st : State) :
  J st -> J (fst (onMessage now msg st)).
Proof.
  intros H. destruct msg as [|incoming|name| |]; cbn; trivial.
  - rewrite fst_answer.
    apply (tail_preserves now
             (fun y => match Obj.enabled incoming with
                       | None => Done y
                       | Some true => connectProcessing y
                       | Some false => connectBypass y
                       end)).
    + apply route_preserves.
    + apply J_call; [exact I|]. apply J_settings, H.
  - destruct (PRESETS name) as [p|]; cbn; [|exact H].
    rewrite fst_answer.
    apply (tail_preserves now connectProcessing).
    + apply J_processing.
    + apply J_call; [exact I|]. apply J_settings, H.
  - rewrite fst_answer.
    apply (tail_preserves now
             (fun y => if enabled (settings y) then connectProcessing y
                       else connectBypass y)).
    + apply route_enabled_preserves.
    + apply J_call; [exact I|]. apply J_settings, H.
Qed.

Lemma activate_preserves (now : R) (st : State) :
  J st -> J (caught (activate now st)).
Proof.
  intros H. unfold activate.
  pose proof (J_apply now st H) as Ha.
  destruct (applySettingsToNodes now st) as [x|x]; cbn in *; [|exact Ha].
  pose proof (route_enabled_preserves x Ha) as Hr.
  destruct (if enabled (settings x) then connectProcessing x
            else connectBypass x) as [y|y]; cbn in *; [|exact Hr].
  apply J_metering.
  destruct (audioCtx y) as [c|]; [|exact Hr].
  destruct (ctxState c); trivial. apply J_call; [exact I | exact Hr].
Qed.

Lemma buildGraph_preserves (now : R) (boot : CtxState) (v : Video)
      (st : State) :
  J st -> J (buildGraph now boot v st).
Proof.
  intros H. unfold buildGraph.
  destruct (same_video (currentVideo st) v && is_some (audioCtx st));
    [exact H|].
  cbv zeta.
  assert (Hx : J (ensureContext boot (with_currentVideo (Some v) st)))
    by (apply J_context, J_video, H).
  destruct (createMediaElementSource _ v) as [[src w]|] eqn:Tap.
  - apply activate_preserves. apply (J_stages _ _ _ _ Tap Hx).
  - apply J_call; [exact I | exact Hx].
Qed.

Lemma step_preserves (e : Event) (st : State) : J st -> J (step e st).
Proof.
  intros H.
  destruct e as [now msg|now i o r|now boot [v|] rs|now boot v];
    unfold step, tryAttach.
  - apply onMessage_preserves, H.
  - destruct (is_some (metering st)); [apply J_tick, H | exact H].
  - destruct (same_video (currentVideo st) v); [exact H|].
    destruct (Nat.leb 2 rs); [apply buildGraph_preserves, H|].
    apply J_call; [exact I | exact H].
  - exact H.
  - apply buildGraph_preserves, H.
Qed.

Lemma run_preserves (es : list Event) (st : State) : J st -> J (run es st).
Proof.
  revert st. induction es as [|e es IH]; intros st H; [exact H|].
  cbn. apply IH, step_preserves, H.
Qed.

Lemma run_from_start (stored : option Obj.t) (es : list Event) :
  J initial -> J (run es (loadSettings stored initial)).
Proof.
  intros H. apply run_preserves. destruct stored; [apply J_settings|]; exact H.
Qed.

End RunPrinciple.

(* ------------------------------------------------------------------ *)
(** ** The calls each primitive makes *)

Section Calls.

Lemma unity_in_range : dBtoLinear (-24) <= 1 <= dBtoLinear 24.
Proof.
  rewrite <- dBtoLinear_0. split; apply dBtoLinear_monotone; lra.
Qed.

Lemma clamped_in_range (g : R) :
  dBtoLinear (-24) <= dBtoLinear (Rmax (-24) (Rmin 24 g)) <= dBtoLinear 24.
Proof.
  split; apply dBtoLinear_monotone.
  - apply Rmax_l.
  - apply Rmax_lub; [lra | apply Rmin_l].
Qed.

Ltac steady_calls :=
  repeat (apply Forall_cons;
          [split; [reflexivity
                  | first [exact I | apply unity_in_range
                           | apply clamped_in_range]]
          |]);
  apply Forall_nil.

Lemma appends_only_refl (Q : Call -> Prop) (st : State) :
  appends_only Q st st.
Proof. exists []. rewrite app_nil_r. split; [reflexivity | constructor]. Qed.

Lemma appends_only_trans (Q : Call -> Prop) (a b c : State) :
  appends_only Q a b -> appends_only Q b c -> appends_only Q a c.
Proof.
  intros (r1 & E1 & F1) (r2 & E2 & F2). exists (r1 ++ r2).
  rewrite E2, E1, app_assoc. split; [reflexivity|].
  apply Forall_app. split; assumption.
Qed.

Lemma quiet_steady (c : Call) : quiet_call c -> steady c.
Proof.
  destruct c; cbn; try contradiction; intros _; split; cbn; trivial.
Qed.

Lemma call_steady (c : Call) (st : State) :
  steady c -> appends_only steady st (call c st).
Proof.
  intros H. exists [c]. split; [reflexivity|]. constructor; [exact H|constructor].
Qed.

Lemma applySettingsToNodes_steady (now : R) (st : State) :
  appends_only steady st (caught (applySettingsToNodes now st)).
Proof.
  unfold applySettingsToNodes, appends_only.
  destruct st as [s [c|] [n|] v m g l h w]; cbn;
    try (exists []; rewrite app_nil_r; split; [reflexivity | constructor]);
    destruct (autoGain s); cbn; repeat rewrite <- app_assoc;
    eexists; (split; [reflexivity | steady_calls]).
Qed.

Lemma tick_steady (now : R) (i o : list R) (r : R) (st : State) :
  appends_only steady st (tick now i o r st).
Proof.
  unfold tick, appends_only.
  destruct st as [s [c|] [n|] v m g l h w]; cbn;
    try (exists []; rewrite app_nil_r; split; [reflexivity | constructor]).
  destruct (enabled s), (autoGain s), (Rlt_dec 0.0005 (calcRMS i)); cbn;
    try (exists []; rewrite app_nil_r; split; [reflexivity | constructor]).
  eexists. split; [reflexivity | steady_calls].
Qed.

Lemma stages_steady (x : State) (v : Video) (src : NodeId) (w : World) :
  createMediaElementSource (world x) v = Some (src, w) ->
  appends_only steady x
    (createStages src (call (CreateSource v true) (with_world w x))).
Proof.
  intros Tap. apply createMediaElementSource_some in Tap.
  destruct Tap as (_ & _ & _ & _ & Cw).
  unfold appends_only. destruct x as [s c n v0 m g l h w0]; cbn in *.
  rewrite Cw. repeat rewrite <- app_assoc.
  eexists. split; [reflexivity | steady_calls].
Qed.

Lemma running_steady (r : list Call) (active : list TimerId) :
  Forall steady r -> fold_left after_call r active = active.
Proof.
  intros F. revert active. induction F as [|c r [T _] _ IH]; intros active;
    [reflexivity|].
  cbn [fold_left]. rewrite <- (IH active) at 2. f_equal.
  destruct c; cbn in T; try discriminate; reflexivity.
Qed.

Lemma steady_running (st st' : State) :
  appends_only steady st st' ->
  running_intervals (calls (world st'))
  = running_intervals (calls (world st)).
Proof.
  intros (r & E & F). unfold running_intervals.
  rewrite E, fold_left_app. apply running_steady, F.
Qed.

Lemma steady_gains (st st' : State) :
  appends_only steady st st' ->
  Forall gain_in_range (calls (world st)) ->
  Forall gain_in_range (calls (world st')).
Proof.
  intros (r & E & F) H. rewrite E. apply Forall_app. split; [exact H|].
  eapply Forall_impl; [|exact F]. intros c [_ G]. exact G.
Qed.

Lemma rewired_steady (st st' : State) :
  rewired st st' -> appends_only steady st st'.
Proof.
  intros H. destruct (rewired_vars _ _ H) as (_ & _ & C & _).
  exists []. rewrite app_nil_r. split; [exact C | constructor].
Qed.

Lemma ensureContext_steady (boot : CtxState) (x : State) :
  appends_only steady x (ensureContext boot x).
Proof.
  destruct (ensureContext_vars boot x)
    as (_ & _ & _ & _ & _ & _ & _ & _ & _ & C & _).
  exists []. rewrite app_nil_r. split; [exact C | constructor].
Qed.

End Calls.

(* ------------------------------------------------------------------ *)
(** ** Invariants of the controller, the gains and the timers *)

Section Invariants.

Lemma push_history_length (x : R) (h : list R) :
  (List.length h <= RMS_HISTORY_LEN)%nat ->
  (List.length (push_history x h) <= RMS_HISTORY_LEN)%nat.
Proof.
  unfold push_history, RMS_HISTORY_LEN. intros H.
  destruct (Nat.ltb_spec 20 (List.length (h ++ [x]))) as [L|L]; [|exact L].
  rewrite length_app in L. simpl in L.
  destruct h as [|y h]; cbn [app tl]; [simpl; lia|].
  rewrite length_app. simpl in *. lia.
Qed.

Lemma clamp_bounds (g : R) : -24 <= Rmax (-24) (Rmin 24 g) <= 24.
Proof. split; [apply Rmax_l | apply Rmax_lub; [lra | apply Rmin_l]]. Qed.

Lemma tick_controller (now : R) (i o : list R) (r : R) (st : State) :
  controller_ok st -> controller_ok (tick now i o r st).
Proof.
  unfold controller_ok, tick.
  destruct st as [s [c|] [n|] v m g l h w]; cbn; trivial.
  intros [G H].
  destruct (enabled s), (autoGain s), (Rlt_dec 0.0005 (calcRMS i)); cbn;
    try (split; assumption).
  split; [apply clamp_bounds | apply push_history_length, H].
Qed.

Lemma stages_vars (src : NodeId) (x : State) :
  autoGainValue (createStages src x) = autoGainValue x /\
  rmsHistory (createStages src x) = rmsHistory x /\
  metering (createStages src x) = metering x /\
  fresh (world (createStages src x)) = (7 + fresh (world x))%nat /\
  nodes (createStages src x) =
    Some (N.mk src (fresh (world x)) (1 + fresh (world x))
               (2 + fresh (world x)) (3 + fresh (world x))
               (4 + fresh (world x)) (5 + fresh (world x))
               (6 + fresh (world x)))%nat.
Proof. destruct x as [s c n v m g l h w]; cbn. repeat split; reflexivity. Qed.

(** The controller variables stay in range along a run. *)
Lemma run_controller (stored : option Obj.t) (es : list Event) :
  controller_ok (run es (loadSettings stored initial)).
Proof.
  apply run_from_start; unfold controller_ok.
  - intros s x H. exact H.
  - intros c x _ H. exact H.
  - intros now x [G H].
    rewrite applySettingsToNodes_autoGainValue.
    destruct (applySettingsToNodes_untouched now x) as (_ & _ & _ & _ & _ & U).
    rewrite U. split; [|exact H].
    destruct (is_some (nodes x) && negb (autoGain (settings x))); lra.
  - intros x [G H].
    destruct (rewired_vars _ _ (connectProcessing_rewired x))
      as (_ & A & _ & _ & _ & (_ & _ & _ & _ & _ & U)).
    rewrite A, U. split; assumption.
  - intros x [G H].
    destruct (rewired_vars _ _ (connectBypass_rewired x))
      as (_ & A & _ & _ & _ & (_ & _ & _ & _ & _ & U)).
    rewrite A, U. split; assumption.
  - intros now i o r x. apply tick_controller.
  - intros v x H. exact H.
  - intros boot x [G H].
    destruct (ensureContext_vars boot x) as (_ & _ & _ & _ & A & U & _).
    rewrite A, U. split; assumption.
  - intros x v src w _ [G H].
    destruct (stages_vars src (call (CreateSource v true) (with_world w x)))
      as (A & U & _).
    rewrite A, U. split; assumption.
  - intros x _. unfold startMetering.
    destruct x as [s c n v [m|] g l h w]; cbn; split; try lra; lia.
  - cbn. split; [lra | lia].
Qed.

(** Every gain target in the call log is in range along a run. *)
Lemma run_gains (stored : option Obj.t) (es : list Event) :
  Forall gain_in_range (calls (world (run es (loadSettings stored initial)))).
Proof.
  apply (run_from_start
           (fun st => Forall gain_in_range (calls (world st)))).
  - intros s x H. exact H.
  - intros c x Q. apply steady_gains, call_steady, quiet_steady, Q.
  - intros now x. apply steady_gains, applySettingsToNodes_steady.
  - intros x. apply steady_gains, rewired_steady, connectProcessing_rewired.
  - intros x. apply steady_gains, rewired_steady, connectBypass_rewired.
  - intros now i o r x. apply steady_gains, tick_steady.
  - intros v x H. exact H.
  - intros boot x. apply steady_gains, ensureContext_steady.
  - intros x v src w Tap. apply steady_gains, (stages_steady _ _ _ _ Tap).
  - intros x H. unfold startMetering.
    destruct x as [s c n v [m|] g l h w]; cbn in *;
      repeat (apply Forall_app; split; [|repeat constructor]); exact H.
  - constructor.
Qed.

Lemma startMetering_timers (x : State) :
  running_intervals (calls (world x)) = opt_list (metering x) ->
  running_intervals (calls (world (startMetering x)))
  = opt_list (metering (startMetering x)).
Proof.
  unfold startMetering, running_intervals.
  destruct x as [s c n v [m|] g l h w]; cbn; intros H;
    rewrite !fold_left_app; cbn [fold_left after_call]; rewrite H; cbn;
    rewrite ?Nat.eqb_refl; reflexivity.
Qed.

(** The running intervals are the one stored in [metering], along a
    run. *)
Lemma run_timers (stored : option Obj.t) (es : list Event) :
  running_intervals (calls (world (run es (loadSettings stored initial))))
  = opt_list (metering (run es (loadSettings stored initial))).
Proof.
  apply (run_from_start
           (fun st => running_intervals (calls (world st))
                      = opt_list (metering st))).
  - intros s x H. exact H.
  - intros c x Q H.
    rewrite (steady_running x (call c x)); [exact H|].
    apply call_steady, quiet_steady, Q.
  - intros now x H.
    rewrite (steady_running _ _ (applySettingsToNodes_steady now x)).
    destruct (applySettingsToNodes_untouched now x) as (_ & _ & _ & M & _).
    rewrite M. exact H.
  - intros x H.
    rewrite (steady_running _ _
               (rewired_steady _ _ (connectProcessing_rewired x))).
    destruct (rewired_vars _ _ (connectProcessing_rewired x))
      as (_ & _ & _ & _ & _ & (_ & _ & _ & M & _)).
    rewrite M. exact H.
  - intros x H.
    rewrite (steady_running _ _
               (rewired_steady _ _ (connectBypass_rewired x))).
    destruct (rewired_vars _ _ (connectBypass_rewired x))
      as (_ & _ & _ & _ & _ & (_ & _ & _ & M & _)).
    rewrite M. exact H.
  - intros now i o r x H.
    rewrite (steady_running _ _ (tick_steady now i o r x)).
    destruct (tick_vars now i o r x) as (_ & _ & _ & _ & M & _).
    rewrite M. exact H.
  - intros v x H. exact H.
  - intros boot x H.
    rewrite (steady_running _ _ (ensureContext_steady boot x)).
    destruct (ensureContext_vars boot x) as (_ & _ & _ & M & _).
    rewrite M. exact H.
  - intros x v src w Tap H.
    rewrite (steady_running _ _ (stages_steady _ _ _ _ Tap)).
    destruct (stages_vars src (call (CreateSource v true) (with_world w x)))
      as (_ & _ & M & _).
    rewrite M. exact H.
  - apply startMetering_timers.
  - reflexivity.
Qed.

End Invariants.

(** X3.  In every state of a run, whatever the store held at start-up,
    the running auto-gain value lies in [[-24, 24]] and the rolling window
    holds at most 20 readings. *)
Theorem controller_stays_in_range (stored : option Obj.t) (es : list Event) :
  -24 <= autoGainValue (run es (loadSettings stored initial)) <= 24 /\
  (List.length (rmsHistory (run es (loadSettings stored initial))) <= 20)%nat.
Proof. exact (run_controller stored es). Qed.

(** X4.  Every [setTargetAtTime] the script has issued on a gain, in any
    run, has a target between [10^(-24/20)] and [10^(24/20)]: the
    auto-gain stage is never steered beyond 24 dB of cut or boost. *)
Theorem gain_targets_stay_in_range
        (stored : option Obj.t) (es : list Event)
        (n : NodeId) (target start tc : R) :
  In (SetTargetAtTime n PGain target start tc)
     (calls (world (run es (loadSettings stored initial)))) ->
  dBtoLinear (-24) <= target <= dBtoLinear 24.
Proof.
  intros H. pose proof (run_gains stored es) as F.
  rewrite Forall_forall in F. exact (F _ H).
Qed.

(** X5.  In every state of a run the intervals that are running (set and
    not cleared since) are exactly the one stored in [metering]: there is
    never more than one metering loop. *)
Theorem one_metering_loop (stored : option Obj.t) (es : list Event) :
  running_intervals (calls (world (run es (loadSettings stored initial))))
  = opt_list (metering (run es (loadSettings stored initial))) /\
  (List.length
     (running_intervals
        (calls (world (run es (loadSettings stored initial))))) <= 1)%nat.
Proof.
  pose proof (run_timers stored es) as H. split; [exact H|].
  rewrite H. destruct (metering _); simpl; lia.
Qed.

(** X4, an instance: the ramp to unity issued when auto-gain is switched
    off after the first bind. *)
Lemma gain_targets_stay_in_range_witness :
  In (SetTargetAtTime 4%nat PGain 1 0 0.05)
     (calls (world (run ramp_run initial))) /\
  dBtoLinear (-24) <= 1 <= dBtoLinear 24.
Proof.
  assert (H : In (SetTargetAtTime 4%nat PGain 1 0 0.05)
                 (calls (world (run ramp_run initial)))).
  { unfold ramp_run. rewrite run_snoc. unfold step.
    destruct (updateSettings_effects 0 (only_autoGain false)
                (run first_bind initial)) as [_ C].
    rewrite C.
    rewrite (applySettingsToNodes_calls 0 _
               (N.mk 1 2 3 4 5 6 7 8)%nat (mkCtx running 0%nat))
      by reflexivity.
    apply in_or_app. right. apply in_or_app. right.
    destruct first_bind_state as (_ & _ & _ & S & _).
    cbn [saveSettings call settings with_settings world with_world].
    rewrite S. left. reflexivity. }
  split; [exact H|].
  exact (gain_targets_stay_in_range None ramp_run 4%nat 1 0 0.05 H).
Defined.

(* ------------------------------------------------------------------ *)
(** ** Routing *)

Section Routing.

Lemma filter_filter {A} (f g : A -> bool) (l : list A) :
  filter f (filter g l) = filter (fun x => g x && f x) l.
Proof.
  induction l as [|x l IH]; [reflexivity|]. cbn.
  destruct (g x); cbn; [destruct (f x)|]; rewrite ?IH; reflexivity.
Qed.

Lemma filter_none {A} (f : A -> bool) (l : list A) :
  (forall x, In x l -> f x = false) -> filter f l = [].
Proof.
  induction l as [|x l IH]; intros H; [reflexivity|]. cbn.
  rewrite (H x (or_introl eq_refl)). apply IH.
  intros y Hy. apply H. right. exact Hy.
Qed.

Lemma filter_all {A} (f : A -> bool) (l : list A) :
  (forall x, In x l -> f x = true) -> filter f l = l.
Proof.
  induction l as [|x l IH]; intros H; [reflexivity|]. cbn.
  rewrite (H x (or_introl eq_refl)). f_equal. apply IH.
  intros y Hy. apply H. right. exact Hy.
Qed.

(** [disconnectAll] removes the connections that leave the listed nodes,
    and no other. *)
Lemma disconnect_each (ids : list NodeId) (st : State) :
  edges (world (fold_left (fun s x => disconnect x s) ids st)) =
  filter (fun e => negb (existsb (Nat.eqb (fst e)) ids)) (edges (world st)).
Proof.
  revert st. induction ids as [|x ids IH]; intros st.
  - cbn. symmetry. apply filter_all. reflexivity.
  - cbn [fold_left]. rewrite IH. cbn [disconnect world with_world edges].
    rewrite filter_filter. apply filter_ext. intros e. cbn [existsb].
    rewrite negb_orb. reflexivity.
Qed.

Lemma disconnectAll_edges (st : State) (n : N.set) :
  nodes st = Some n ->
  edges (world (disconnectAll st)) = foreign n (edges (world st)).
Proof.
  intros H. unfold disconnectAll. rewrite H. apply disconnect_each.
Qed.

Lemma foreign_source (n : N.set) (es : list (NodeId * NodeId))
      (e : NodeId * NodeId) :
  In e (foreign n es) -> ~ In (fst e) (N.values n).
Proof.
  unfold foreign. intros H. apply filter_In in H. destruct H as [_ H].
  intros I. unfold leaves in H.
  assert (existsb (Nat.eqb (fst e)) (N.values n) = true).
  { apply existsb_exists. exists (fst e). split; [exact I|].
    apply Nat.eqb_refl. }
  rewrite H0 in H. discriminate.
Qed.

(** A connection from a node that has none yet is added at the end. *)
Lemma connect_new (a b : NodeId) (x : State) :
  (forall e, In e (edges (world x)) -> fst e <> a) ->
  edges (world (connect a b x)) = edges (world x) ++ [(a, b)].
Proof.
  intros H. unfold connect.
  destruct (existsb (edge_eqb (a, b)) (edges (world x))) eqn:E;
    [|reflexivity].
  apply existsb_exists in E. destruct E as (e & I & Q).
  unfold edge_eqb in Q. apply andb_prop in Q. destruct Q as [Q _].
  apply Nat.eqb_eq in Q. cbn in Q. exfalso. apply (H e I). symmetry. exact Q.
Qed.

Lemma leaves_iff (n : N.set) (e : NodeId * NodeId) :
  leaves n e = true <-> In (fst e) (N.values n).
Proof.
  unfold leaves. rewrite existsb_exists. split.
  - intros (x & I & Q). apply Nat.eqb_eq in Q. rewrite Q. exact I.
  - intros I. exists (fst e). split; [exact I | apply Nat.eqb_refl].
Qed.

Lemma outgoing_foreign (n : N.set) (es : list (NodeId * NodeId)) :
  outgoing n (foreign n es) = [] /\ foreign n (foreign n es) = foreign n es.
Proof.
  unfold outgoing, foreign. split.
  - apply filter_none. intros e H. apply filter_In in H.
    destruct H as [_ H]. destruct (leaves n e); [discriminate | reflexivity].
  - apply filter_all. intros e H. apply filter_In in H. apply H.
Qed.

Lemma outgoing_own (n : N.set) (es : list (NodeId * NodeId)) :
  (forall e, In e es -> In (fst e) (N.values n)) ->
  outgoing n es = es /\ foreign n es = [].
Proof.
  intros H. unfold outgoing, foreign. split.
  - apply filter_all. intros e I. apply leaves_iff, H, I.
  - apply filter_none. intros e I.
    rewrite (proj2 (leaves_iff n e) (H e I)). reflexivity.
Qed.

Lemma chain_own (n : N.set) (c : AudioContext) (on : bool)
      (e : NodeId * NodeId) :
  In e (routing on n c) -> In (fst e) (N.values n).
Proof.
  unfold routing, chain, N.values. destruct on; cbn [In]; intros H;
    repeat (destruct H as [H|H]; [subst e; cbn [fst]; tauto|]);
    contradiction.
Qed.

Lemma connect_each (pairs : list (NodeId * NodeId)) (x : State) :
  NoDup (map fst pairs) ->
  (forall e, In e (edges (world x)) -> ~ In (fst e) (map fst pairs)) ->
  edges (world (fold_left (fun s p => connect (fst p) (snd p) s) pairs x))
  = edges (world x) ++ pairs.
Proof.
  revert x. induction pairs as [|[a b] ps IH]; intros x D H.
  - cbn. rewrite app_nil_r. reflexivity.
  - cbn [fold_left fst snd]. cbn [map fst] in D, H.
    apply NoDup_cons_iff in D. destruct D as [Da Dp].
    assert (E : edges (world (connect a b x)) = edges (world x) ++ [(a, b)]).
    { apply connect_new. intros e I Q. apply (H e I). left. symmetry. exact Q. }
    rewrite IH; [rewrite E, <- app_assoc; reflexivity | exact Dp |].
    intros e I. rewrite E in I. apply in_app_or in I. destruct I as [I|I].
    + intros Q. apply (H e I). right. exact Q.
    + destruct I as [<-|[]]. exact Da.
Qed.

Lemma fold_connect_nil (x : State) :
  x = fold_left (fun s p => connect (fst p) (snd p) s) [] x.
Proof. reflexivity. Qed.

Lemma fold_connect (a b : NodeId) (ps : list (NodeId * NodeId)) (x : State) :
  fold_left (fun s p => connect (fst p) (snd p) s) ps (connect a b x)
  = fold_left (fun s p => connect (fst p) (snd p) s) ((a, b) :: ps) x.
Proof. reflexivity. Qed.

(** After [connectProcessing] the connections are those that do not leave
    the stage set, as before, followed by the chain, each link once. *)
Lemma connectProcessing_edges (st : State) (n : N.set) (c : AudioContext) :
  nodes st = Some n -> audioCtx st = Some c -> NoDup (N.values n) ->
  edges (world (caught (connectProcessing st)))
  = foreign n (edges (world st)) ++ chain n c.
Proof.
  intros Hn Hc D. unfold connectProcessing. cbv zeta.
  destruct (disconnectAll_vars st) as [A N]. rewrite N, Hn.
  repeat match goal with
         | |- context [audioCtx (connect ?a ?b ?x)] =>
             rewrite (proj1 (connect_vars a b x))
         end.
  rewrite A, Hc. cbn [caught].
  match goal with
  | |- edges (world ?T) = _ => rewrite (fold_connect_nil T)
  end.
  rewrite !fold_connect.
  rewrite connect_each.
  - rewrite (disconnectAll_edges st n Hn). reflexivity.
  - exact D.
  - intros e I. rewrite (disconnectAll_edges st n Hn) in I.
    exact (foreign_source n _ e I).
Qed.

Lemma connectBypass_edges (st : State) (n : N.set) (c : AudioContext) :
  nodes st = Some n -> audioCtx st = Some c ->
  edges (world (caught (connectBypass st)))
  = foreign n (edges (world st)) ++ [(N.source n, destination c)].
Proof.
  intros Hn Hc. unfold connectBypass. cbv zeta.
  destruct (disconnectAll_vars st) as [A N]. rewrite N, A, Hn, Hc.
  cbn [caught]. rewrite connect_new.
  - rewrite (disconnectAll_edges st n Hn). reflexivity.
  - intros e I Q. rewrite (disconnectAll_edges st n Hn) in I.
    apply (foreign_source n _ e I). rewrite Q.
    destruct n; cbn. left. reflexivity.
Qed.

(** Either routing step, by the flag it is made for. *)
Lemma route_edges (on : bool) (st : State) (n : N.set) (c : AudioContext) :
  nodes st = Some n -> audioCtx st = Some c -> NoDup (N.values n) ->
  edges (world (caught (if on then connectProcessing st
                        else connectBypass st)))
  = foreign n (edges (world st)) ++ routing on n c.
Proof.
  intros Hn Hc D. destruct on; cbn [routing].
  - apply connectProcessing_edges; assumption.
  - apply connectBypass_edges; assumption.
Qed.

Lemma routed_split (on : bool) (n : N.set) (c : AudioContext)
      (es : list (NodeId * NodeId)) :
  outgoing n (foreign n es ++ routing on n c) = routing on n c /\
  foreign n (foreign n es ++ routing on n c) = foreign n es.
Proof.
  destruct (outgoing_foreign n es) as [O F].
  destruct (outgoing_own n (routing on n c) (chain_own n c on)) as [O' F'].
  unfold outgoing, foreign in *. rewrite !filter_app.
  rewrite O, F, O', F', app_nil_r. split; reflexivity.
Qed.

End Routing.

(* ------------------------------------------------------------------ *)
(** ** The graph variables along a run *)

Section GraphInvariant.

Lemma stage_ids_distinct (src : NodeId) :
  NoDup (N.values (N.mk src (S src) (1 + S src) (2 + S src) (3 + S src)
                        (4 + S src) (5 + S src) (6 + S src))%nat).
Proof.
  unfold N.values. simpl.
  repeat (apply NoDup_cons; [simpl; lia|]). apply NoDup_nil.
Qed.

Lemma untouched_graph_ok (st st' : State) :
  untouched st st' -> graph_ok st -> graph_ok st'.
Proof.
  intros (A & N & _ & M & _) ([W1 W2] & G & D).
  unfold graph_ok, wired. rewrite A, N, M.
  repeat split; assumption.
Qed.

Lemma is_some_inv {A} (o : option A) :
  is_some o = true -> exists a, o = Some a.
Proof. destruct o as [a|]; [exists a; reflexivity | discriminate]. Qed.

Lemma resume_vars (y : State) :
  let y' := match audioCtx y with
            | Some c => match ctxState c with
                        | suspended => call Resume y
                        | _ => y
                        end
            | None => y
            end in
  nodes y' = nodes y /\ audioCtx y' = audioCtx y /\
  currentVideo y' = currentVideo y /\ settings y' = settings y /\
  edges (world y') = edges (world y) /\ tapped (world y') = tapped (world y).
Proof.
  cbv zeta. destruct (audioCtx y) as [c|] eqn:E; [|repeat split; assumption].
  destruct (ctxState c); cbn; repeat split; assumption.
Qed.

(** A bind of a video that is not current and owns no tap yet: the state
    it returns is [startMetering] of a state [y] that holds the video, a
    fresh stage set of eight distinct nodes and the routing the settings
    ask for. *)
Lemma buildGraph_bound (now : R) (boot : CtxState) (v : Video) (st : State) :
  same_video (currentVideo st) v && is_some (audioCtx st) = false ->
  existsb (Nat.eqb v) (tapped (world st)) = false ->
  exists n c y,
    buildGraph now boot v st = startMetering y /\
    nodes y = Some n /\ audioCtx y = Some c /\ NoDup (N.values n) /\
    currentVideo y = Some v /\ settings y = settings st /\
    tapped (world y) = v :: tapped (world st) /\
    edges (world y)
    = foreign n (edges (world st)) ++ routing (enabled (settings st)) n c.
Proof.
  intros A T. unfold buildGraph. rewrite A. cbv zeta.
  destruct (ensureContext_vars boot (with_currentVideo (Some v) st))
    as (Sx & _ & Vx & _ & _ & _ & _ & Tx & Ex & _ & Cx).
  set (x := ensureContext boot (with_currentVideo (Some v) st)) in *.
  unfold createMediaElementSource. rewrite Tx.
  cbn [world with_currentVideo]. rewrite T.
  set (w := mkWorld (v :: tapped (world st)) (edges (world x))
                    (S (fresh (world x))) (calls (world x))).
  set (x1 := call (CreateSource v true) (with_world w x)).
  destruct (stages_vars (fresh (world x)) x1) as (_ & _ & _ & _ & Nz).
  destruct (createStages_vars (fresh (world x)) x1)
    as (Sz & Az & Vz & _ & Tz & Ez).
  set (z := createStages (fresh (world x)) x1) in *.
  change (fresh (world x1)) with (S (fresh (world x))) in Nz.
  set (n := (N.mk (fresh (world x)) (S (fresh (world x)))
                  (1 + S (fresh (world x))) (2 + S (fresh (world x)))
                  (3 + S (fresh (world x))) (4 + S (fresh (world x)))
                  (5 + S (fresh (world x))) (6 + S (fresh (world x))))%nat)
    in *.
  assert (Cz : is_some (audioCtx z) = true) by (rewrite Az; exact Cx).
  destruct (is_some_inv _ Cz) as [c Hc].
  (* settings onto the nodes *)
  unfold activate.
  rewrite applySettingsToNodes_done by (intros _; exact Cz).
  destruct (applySettingsToNodes_untouched now z) as (U1 & U2 & U3 & _).
  pose proof (applySettingsToNodes_settings now z) as S1.
  pose proof (applySettingsToNodes_edges now z) as E1.
  destruct (applySettingsToNodes_world now z) as [T1 _].
  set (z1 := caught (applySettingsToNodes now z)) in *.
  cbn [andThen].
  (* routing *)
  assert (Hn1 : nodes z1 = Some n) by (rewrite U2; exact Nz).
  assert (Hc1 : audioCtx z1 = Some c) by (rewrite U1; exact Hc).
  pose proof (route_edges (enabled (settings z1)) z1 n c Hn1 Hc1
                (stage_ids_distinct _)) as E2.
  destruct (rewired_vars _ _ (route_enabled_rewired z1))
    as (S2 & _ & _ & T2 & _ & (R1 & R2 & R3 & _)).
  assert (D2 : (if enabled (settings z1) then connectProcessing z1
                else connectBypass z1)
               = Done (caught (if enabled (settings z1)
                               then connectProcessing z1
                               else connectBypass z1))).
  { destruct (enabled (settings z1)).
    - rewrite connectProcessing_outcome at 1. rewrite Hn1, Hc1. reflexivity.
    - rewrite connectBypass_outcome at 1. rewrite Hn1, Hc1. reflexivity. }
  rewrite D2.
  set (z2 := caught (if enabled (settings z1) then connectProcessing z1
                     else connectBypass z1)) in *.
  cbn [andThen caught].
  destruct (resume_vars z2) as (Q1 & Q2 & Q3 & Q4 & Q5 & Q6).
  cbv zeta in Q1, Q2, Q3, Q4, Q5, Q6.
  eexists n, c, _. split; [reflexivity|].
  split; [rewrite Q1, R2; exact Hn1|].
  split; [rewrite Q2, R1; exact Hc1|].
  split; [apply stage_ids_distinct|].
  split; [rewrite Q3, R3, U3, Vz; exact Vx|].
  assert (Ss : settings z1 = settings st)
    by (rewrite S1, Sz; exact Sx).
  split; [rewrite Q4, S2; exact Ss|].
  split; [rewrite Q6, T2, T1, Tz; reflexivity|].
  rewrite Q5, E2, E1, Ez, Ss. cbn [x1 w call with_world world edges].
  rewrite Ex. reflexivity.
Qed.

End GraphInvariant.

Section GraphAlongRuns.

Lemma startMetering_resets (y : State) :
  autoGainValue (startMetering y) = 0 /\ rmsHistory (startMetering y) = [] /\
  levels (startMetering y) = levels y.
Proof.
  unfold startMetering. destruct y as [s c n v [m|] g l h w]; cbn;
    repeat split; reflexivity.
Qed.

Lemma buildGraph_current (now : R) (boot : CtxState) (v : Video)
      (st : State) :
  currentVideo (buildGraph now boot v st) = Some v /\
  is_some (audioCtx (buildGraph now boot v st)) = true.
Proof.
  destruct (same_video (currentVideo st) v && is_some (audioCtx st)) eqn:A.
  - unfold buildGraph. rewrite A. apply andb_prop in A. destruct A as [A C].
    split; [|exact C]. unfold same_video in A.
    destruct (currentVideo st) as [u|]; [|discriminate].
    apply Nat.eqb_eq in A. rewrite A. reflexivity.
  - destruct (existsb (Nat.eqb v) (tapped (world st))) eqn:T.
    + rewrite (buildGraph_tap_throws now boot v st A)
        by (unfold createMediaElementSource; rewrite T; reflexivity).
      destruct (ensureContext_vars boot (with_currentVideo (Some v) st))
        as (_ & _ & Vx & _ & _ & _ & _ & _ & _ & _ & Cx).
      split; [exact Vx | exact Cx].
    + destruct (buildGraph_bound now boot v st A T)
        as (n & c & y & E & _ & Hc & _ & Hv & _).
      rewrite E. destruct (startMetering_vars y) as (_ & C & _ & V & _).
      rewrite C, V, Hc. split; [exact Hv | reflexivity].
Qed.

Lemma buildGraph_graph_ok (now : R) (boot : CtxState) (v : Video)
      (st : State) :
  graph_ok st -> graph_ok (buildGraph now boot v st).
Proof.
  intros G.
  destruct (same_video (currentVideo st) v && is_some (audioCtx st)) eqn:A.
  - unfold buildGraph. rewrite A. exact G.
  - destruct (existsb (Nat.eqb v) (tapped (world st))) eqn:T.
    + rewrite (buildGraph_tap_throws now boot v st A)
        by (unfold createMediaElementSource; rewrite T; reflexivity).
      destruct (ensureContext_vars boot (with_currentVideo (Some v) st))
        as (_ & Nx & _ & Mx & _ & _ & _ & _ & _ & _ & Cx).
      destruct G as ([W1 W2] & G1 & G2).
      unfold graph_ok, wired.
      cbn [call nodes metering audioCtx with_world].
      rewrite Nx, Mx. cbn [nodes metering with_currentVideo].
      repeat split; trivial.
    + destruct (buildGraph_bound now boot v st A T)
        as (n & c & y & E & Hn & Hc & D & _).
      rewrite E.
      destruct (startMetering_vars y) as (_ & C & N & _ & M & _).
      unfold graph_ok, wired. rewrite C, N, M, Hn, Hc.
      repeat split; trivial.
      intros n' Q. inversion Q; subst n'. exact D.
Qed.

Lemma step_graph_ok (e : Event) (st : State) :
  graph_ok st -> graph_ok (step e st).
Proof.
  intros G.
  destruct e as [now msg|now i o r|now boot [v|] rs|now boot v];
    unfold step, tryAttach.
  - destruct (onMessage_vars now msg st) as (_ & U & _).
    exact (untouched_graph_ok _ _ U G).
  - destruct (is_some (metering st)); [|exact G].
    destruct (tick_vars now i o r st) as (_ & T1 & T2 & _ & T4 & _).
    destruct G as ([W1 W2] & G1 & G2).
    unfold graph_ok, wired. rewrite T1, T2, T4. repeat split; trivial.
  - destruct (same_video (currentVideo st) v); [exact G|].
    destruct (Nat.leb 2 rs); [apply buildGraph_graph_ok, G | exact G].
  - exact G.
  - apply buildGraph_graph_ok, G.
Qed.

Lemma run_graph_ok (stored : option Obj.t) (es : list Event) :
  graph_ok (run es (loadSettings stored initial)).
Proof.
  assert (G0 : graph_ok (loadSettings stored initial)).
  { destruct stored; unfold graph_ok, wired; cbn;
      repeat split; try discriminate. }
  generalize dependent (loadSettings stored initial). intros st G.
  revert st G. induction es as [|e es IH]; intros st G; [exact G|].
  cbn. apply IH, step_graph_ok, G.
Qed.

End GraphAlongRuns.

(** X6.  [buildGraph] is idempotent in its video: whether the first call
    returned early, failed at the tap or built a graph, a second call with
    the same video returns the state as it is. *)
Theorem buildGraph_twice (now now' : R) (boot boot' : CtxState)
        (v : Video) (st : State) :
  buildGraph now' boot' v (buildGraph now boot v st)
  = buildGraph now boot v st.
Proof.
  destruct (buildGraph_current now boot v st) as [V C].
  unfold buildGraph at 1. rewrite V, C, same_video_refl. reflexivity.
Qed.

(** X7.  A bind of a video that is not the current one and owns no tap
    yet leaves: the video recorded and tapped, a context, a stage set of
    eight distinct nodes whose outgoing connections are exactly the
    routing that [settings.enabled] asks for, every connection of other
    nodes as before, the settings as before, an interval running, and the
    controller reset ([autoGainValue = 0], empty window). *)
Theorem bind_builds_and_routes
        (now : R) (boot : CtxState) (v : Video) (st : State) :
  same_video (currentVideo st) v && is_some (audioCtx st) = false ->
  existsb (Nat.eqb v) (tapped (world st)) = false ->
  exists n c,
    nodes (buildGraph now boot v st) = Some n /\
    audioCtx (buildGraph now boot v st) = Some c /\
    NoDup (N.values n) /\
    currentVideo (buildGraph now boot v st) = Some v /\
    In v (tapped (world (buildGraph now boot v st))) /\
    settings (buildGraph now boot v st) = settings st /\
    is_some (metering (buildGraph now boot v st)) = true /\
    autoGainValue (buildGraph now boot v st) = 0 /\
    rmsHistory (buildGraph now boot v st) = [] /\
    outgoing n (edges (world (buildGraph now boot v st)))
      = routing (enabled (settings st)) n c /\
    foreign n (edges (world (buildGraph now boot v st)))
      = foreign n (edges (world st)).
Proof.
  intros A T.
  destruct (buildGraph_bound now boot v st A T)
    as (n & c & y & E & Hn & Hc & D & Hv & Hs & Ht & He).
  rewrite E.
  destruct (startMetering_vars y) as (S1 & C1 & N1 & V1 & M1 & E1 & T1).
  destruct (startMetering_resets y) as (G1 & H1 & _).
  destruct (routed_split (enabled (settings st)) n c (edges (world st)))
    as [O F].
  exists n, c. rewrite S1, C1, N1, V1, M1, E1, T1, G1, H1, He, Ht, O, F.
  repeat split; trivial. left. reflexivity.
Qed.

(** X7, an instance: the first bind from the initial state. *)
Lemma bind_builds_and_routes_witness :
  exists n c,
    nodes (buildGraph 0 running 0%nat initial) = Some n /\
    audioCtx (buildGraph 0 running 0%nat initial) = Some c /\
    outgoing n (edges (world (buildGraph 0 running 0%nat initial)))
      = chain n c.
Proof.
  destruct (bind_builds_and_routes 0 running 0%nat initial eq_refl eq_refl)
    as (n & c & H1 & H2 & _ & _ & _ & _ & _ & _ & _ & H10 & _).
  exists n, c. split; [exact H1|]. split; [exact H2 | exact H10].
Defined.

(* ------------------------------------------------------------------ *)
(** ** What the handlers answer and how they route *)

Section Handlers.

Variable st : State.
Hypothesis ok : graph_ok st.

Let wired_after (s : Settings) :
  is_some (nodes (saveSettings (with_settings s st))) = true ->
  is_some (audioCtx (saveSettings (with_settings s st))) = true.
Proof. destruct ok as ([W _] & _). exact W. Qed.

(** After the settings are stored and applied, the state the routing step
    starts from. *)
Lemma applied_state (now : R) (s : Settings) :
  applySettingsToNodes now (saveSettings (with_settings s st))
  = Done (caught (applySettingsToNodes now
                    (saveSettings (with_settings s st)))) /\
  nodes (caught (applySettingsToNodes now
                   (saveSettings (with_settings s st)))) = nodes st /\
  audioCtx (caught (applySettingsToNodes now
                      (saveSettings (with_settings s st)))) = audioCtx st /\
  settings (caught (applySettingsToNodes now
                      (saveSettings (with_settings s st)))) = s /\
  edges (world (caught (applySettingsToNodes now
                          (saveSettings (with_settings s st)))))
  = edges (world st).
Proof.
  split; [apply applySettingsToNodes_done, wired_after|].
  destruct (applySettingsToNodes_untouched now
              (saveSettings (with_settings s st))) as (A & N & _).
  rewrite A, N, applySettingsToNodes_settings, applySettingsToNodes_edges.
  repeat split; reflexivity.
Qed.

Lemma answer_route (on : bool) (x : State) :
  (is_some (nodes x) = true -> is_some (audioCtx x) = true) ->
  snd (answer (if on then connectProcessing x else connectBypass x))
  = if is_some (nodes x) then Some (Success (settings x)) else None.
Proof.
  intros W.
  destruct (rewired_vars _ _ (connectProcessing_rewired x)) as (S1 & _).
  destruct (rewired_vars _ _ (connectBypass_rewired x)) as (S2 & _).
  destruct on; [rewrite connectProcessing_outcome
               | rewrite connectBypass_outcome];
    destruct (nodes x) as [n|]; cbn [is_some andb] in *;
    try reflexivity;
    rewrite (W eq_refl); cbn [answer snd]; congruence.
Qed.

End Handlers.

(** X8.  The handlers answer only if they get through their routing step.
    In every state of a run: [updateSettings] answers with the merged
    settings unless the partial has an [enabled] key and no stage set
    exists; [resetSettings] and [applyPreset] with a name found in the
    table answer (with the new settings) exactly when a stage set exists.
    When no answer is sent the settings have been changed all the same. *)
Theorem handlers_answer_when_routed
        (stored : option Obj.t) (es : list Event) (st : State) (now : R) :
  st = run es (loadSettings stored initial) ->
  (forall incoming,
     snd (onMessage now (UpdateSettings incoming) st)
     = (if is_some (Obj.enabled incoming) && negb (is_some (nodes st))
        then None
        else Some (Success (mergeSettings incoming (settings st)))) /\
     settings (fst (onMessage now (UpdateSettings incoming) st))
     = mergeSettings incoming (settings st)) /\
  (snd (onMessage now ResetSettings st)
   = (if is_some (nodes st) then Some (Success DEFAULT_SETTINGS) else None) /\
   settings (fst (onMessage now ResetSettings st)) = DEFAULT_SETTINGS) /\
  (forall name p,
     PRESETS name = Some p ->
     snd (onMessage now (ApplyPreset name) st)
     = (if is_some (nodes st)
        then Some (Success (assign (assign (settings st) p)
                                   (preset_choice name)))
        else None) /\
     settings (fst (onMessage now (ApplyPreset name) st))
     = assign (assign (settings st) p) (preset_choice name)).
Proof.
  intros Hrun.
  assert (G : graph_ok st) by (rewrite Hrun; apply run_graph_ok).
  assert (W : forall x, nodes x = nodes st -> audioCtx x = audioCtx st ->
                        is_some (nodes x) = true ->
                        is_some (audioCtx x) = true).
  { intros x N A. rewrite N, A. destruct G as ([W _] & _). exact W. }
  split; [|split].
  - intros incoming. split.
    + cbn [onMessage].
      destruct (applied_state st G now (mergeSettings incoming (settings st)))
        as (D & N & A & S & _).
      rewrite D. cbn [andThen].
      destruct (Obj.enabled incoming) as [on|]; cbn [is_some andb].
      * replace (match on with
                 | true => connectProcessing _
                 | false => connectBypass _
                 end)
          with (if on
                then connectProcessing
                       (caught (applySettingsToNodes now
                          (saveSettings (with_settings
                             (mergeSettings incoming (settings st)) st))))
                else connectBypass
                       (caught (applySettingsToNodes now
                          (saveSettings (with_settings
                             (mergeSettings incoming (settings st)) st)))))
          by (destruct on; reflexivity).
        rewrite answer_route by (apply W; assumption).
        rewrite N, S. destruct (nodes st); reflexivity.
      * cbn [answer snd]. rewrite S. reflexivity.
    + apply (onMessage_vars now (UpdateSettings incoming) st).
  - split; [|apply (onMessage_vars now ResetSettings st)].
    cbn [onMessage].
    destruct (applied_state st G now DEFAULT_SETTINGS) as (D & N & A & S & _).
    rewrite D. cbn [andThen]. rewrite S.
    change (enabled DEFAULT_SETTINGS) with true. cbv iota.
    rewrite (answer_route true) by (apply W; assumption).
    rewrite N, S. reflexivity.
  - intros name p Hp. split.
    + cbn [onMessage]. rewrite Hp.
      destruct (applied_state st G now
                  (assign (assign (settings st) p) (preset_choice name)))
        as (D & N & A & S & _).
      rewrite D. cbn [andThen].
      rewrite (answer_route true) by (apply W; assumption).
      rewrite N, S. reflexivity.
    + destruct (onMessage_vars now (ApplyPreset name) st) as (S & _).
      rewrite S. cbn [settingsAfter]. rewrite Hp. reflexivity.
Qed.

(** X8, an instance: before any video is bound, [resetSettings] resets the
    settings and sends no answer. *)
Lemma handlers_answer_when_routed_witness :
  snd (onMessage 0 ResetSettings (run [] (loadSettings None initial))) = None /\
  settings (fst (onMessage 0 ResetSettings
                   (run [] (loadSettings None initial))))
  = DEFAULT_SETTINGS.
Proof.
  exact (proj1 (proj2 (handlers_answer_when_routed
                         None [] (run [] (loadSettings None initial)) 0
                         eq_refl))).
Defined.

Section HandlerRouting.

Variables (st : State) (n : N.set) (c : AudioContext).
Hypothesis ok : graph_ok st.
Hypothesis has_nodes : nodes st = Some n.
Hypothesis has_ctx : audioCtx st = Some c.

(** The connections after the settings [s] are stored and applied and the
    graph routed for the flag [on]. *)
Lemma routed_after (now : R) (s : Settings) (on : bool) :
  edges (world (caught
    (andThen (applySettingsToNodes now (saveSettings (with_settings s st)))
             (fun y => if on then connectProcessing y else connectBypass y))))
  = foreign n (edges (world st)) ++ routing on n c.
Proof.
  destruct (applied_state st ok now s) as (D & N & A & _ & E).
  rewrite D. cbn [andThen].
  rewrite (route_edges on _ n c).
  - rewrite E. reflexivity.
  - rewrite N. exact has_nodes.
  - rewrite A. exact has_ctx.
  - destruct ok as (_ & _ & Dn). apply Dn, has_nodes.
Qed.

End HandlerRouting.

(** X9.  In every state of a run that has a stage set, a handler that
    routes leaves exactly the routing it was asked for on the stage set,
    whatever the routing was before: [updateSettings] with [enabled: on]
    the routing for [on], [resetSettings] and [applyPreset] with a name
    found in the table the processing chain.  No link is doubled, and the
    connections of other nodes are as before; an [updateSettings] without
    an [enabled] key changes no connection. *)
Theorem handlers_route_exactly
        (stored : option Obj.t) (es : list Event) (st : State) (now : R)
        (n : N.set) (c : AudioContext) :
  st = run es (loadSettings stored initial) ->
  nodes st = Some n -> audioCtx st = Some c ->
  (forall incoming on,
     Obj.enabled incoming = Some on ->
     edges (world (fst (onMessage now (UpdateSettings incoming) st)))
     = foreign n (edges (world st)) ++ routing on n c) /\
  (forall incoming,
     Obj.enabled incoming = None ->
     edges (world (fst (onMessage now (UpdateSettings incoming) st)))
     = edges (world st)) /\
  edges (world (fst (onMessage now ResetSettings st)))
  = foreign n (edges (world st)) ++ chain n c /\
  (forall name p,
     PRESETS name = Some p ->
     edges (world (fst (onMessage now (ApplyPreset name) st)))
     = foreign n (edges (world st)) ++ chain n c) /\
  (forall on,
     outgoing n (foreign n (edges (world st)) ++ routing on n c)
     = routing on n c /\
     foreign n (foreign n (edges (world st)) ++ routing on n c)
     = foreign n (edges (world st))).
Proof.
  intros Hrun Hn Hc.
  assert (G : graph_ok st) by (rewrite Hrun; apply run_graph_ok).
  split; [|split; [|split; [|split]]].
  - intros incoming on E. cbn [onMessage]. rewrite fst_answer, E.
    rewrite <- (routed_after st n c G Hn Hc now
                  (mergeSettings incoming (settings st)) on).
    destruct on; reflexivity.
  - intros incoming E. cbn [onMessage]. rewrite fst_answer, E.
    destruct (applied_state st G now (mergeSettings incoming (settings st)))
      as (D & _ & _ & _ & Ed).
    rewrite D. cbn [andThen caught]. exact Ed.
  - cbn [onMessage]. rewrite fst_answer.
    change (chain n c) with (routing true n c).
    rewrite <- (routed_after st n c G Hn Hc now DEFAULT_SETTINGS true).
    destruct (applied_state st G now DEFAULT_SETTINGS) as (D & _ & _ & S & _).
    rewrite D. cbn [andThen]. rewrite S. reflexivity.
  - intros name p Hp. cbn [onMessage]. rewrite Hp, fst_answer.
    change (chain n c) with (routing true n c).
    rewrite <- (routed_after st n c G Hn Hc now
                  (assign (assign (settings st) p) (preset_choice name))
                  true).
    reflexivity.
  - intros on. apply routed_split.
Qed.

(** X9, an instance: after the first bind, switching processing off
    leaves the one bypass connection on the stage set. *)
Lemma handlers_route_exactly_witness :
  outgoing (N.mk 1 2 3 4 5 6 7 8)%nat
    (edges (world (fst (onMessage 0 (UpdateSettings (only_enabled false))
                                  (run first_bind initial)))))
  = [(1, 0)]%nat.
Proof.
  destruct (handlers_route_exactly None first_bind (run first_bind initial)
              0 (N.mk 1 2 3 4 5 6 7 8)%nat (mkCtx running 0%nat)
              eq_refl eq_refl eq_refl) as (H & _ & _ & _ & K).
  rewrite (H (only_enabled false) false eq_refl).
  exact (proj1 (K false)).
Defined.

(** X10.  In every state of a run [getState] changes nothing and reports
    [isActive] exactly when the metering interval is running, which is
    exactly when a stage set exists; [contextState] is that of the
    context, or none without one. *)
Theorem getState_reports_the_loop
        (stored : option Obj.t) (es : list Event) (st : State) (now : R) :
  st = run es (loadSettings stored initial) ->
  onMessage now GetState st
  = (st, Some (Snapshot (settings st) (levels st) (autoGainValue st)
                        (is_some (metering st))
                        (option_map ctxState (audioCtx st)))) /\
  is_some (metering st) = is_some (nodes st).
Proof.
  intros Hrun.
  assert (G : graph_ok st) by (rewrite Hrun; apply run_graph_ok).
  destruct G as ([W1 W2] & G1 & _).
  assert (M : is_some (metering st) = is_some (nodes st)).
  { destruct (is_some (metering st)) eqn:E1, (is_some (nodes st)) eqn:E2;
      trivial.
    - specialize (W2 eq_refl). discriminate.
    - specialize (G1 eq_refl). discriminate. }
  split; [|exact M]. cbn [onMessage]. rewrite M.
  destruct (is_some (nodes st)) eqn:E2.
  - rewrite (W1 eq_refl). reflexivity.
  - rewrite andb_false_r. reflexivity.
Qed.

(** X10, an instance: right after the first bind. *)
Lemma getState_reports_the_loop_witness :
  is_some (metering (run first_bind initial))
  = is_some (nodes (run first_bind initial)).
Proof.
  exact (proj2 (getState_reports_the_loop None first_bind
                  (run first_bind initial) 0 eq_refl)).
Defined.

(* ------------------------------------------------------------------ *)
(** ** Presets, the popup and the service worker *)

(** X11.  [applyPreset] with light, medium or heavy, in any state, stores
    that name, the preset's whole tuple and [enabled = true], and leaves
    [preGain] and [limiterThreshold] as they were. *)
Theorem applyPreset_named_preset (now : R) (name : string) (st : State) :
  named name ->
  exists row,
    PRESETS name = Some row /\
    preset (settings (fst (onMessage now (ApplyPreset name) st))) = name /\
    carries_all row (settings (fst (onMessage now (ApplyPreset name) st))) /\
    enabled (settings (fst (onMessage now (ApplyPreset name) st))) = true /\
    preGain (settings (fst (onMessage now (ApplyPreset name) st)))
      = preGain (settings st) /\
    limiterThreshold (settings (fst (onMessage now (ApplyPreset name) st)))
      = limiterThreshold (settings st).
Proof.
  intros Hn.
  destruct (named_row name Hn) as (_ & _ & row & Hrow & _ & A).
  destruct (onMessage_vars now (ApplyPreset name) st) as (S & _).
  rewrite S. cbn [settingsAfter]. rewrite Hrow.
  destruct (A (settings st)) as (C & _ & _ & Pg & Lt).
  exists row. split; [reflexivity|].
  split; [reflexivity|]. split; [exact C|]. split; [reflexivity|].
  split; [exact Pg | exact Lt].
Qed.

(** X11, an instance: [applyPreset('light')] with processing off. *)
Lemma applyPreset_named_preset_witness :
  exists row,
    PRESETS "light" = Some row /\
    enabled (settings (fst (onMessage 0 (ApplyPreset "light")
               (with_settings (assign DEFAULT_SETTINGS (only_enabled false))
                              initial)))) = true.
Proof.
  destruct (applyPreset_named_preset 0 "light"
              (with_settings (assign DEFAULT_SETTINGS (only_enabled false))
                             initial)
              (or_introl eq_refl)) as (row & H1 & _ & _ & H4 & _).
  exists row. split; [exact H1 | exact H4].
Defined.

(** X12.  Whatever the content script's settings are, a popup gesture
    that pushes the controls (toggling Enable or Auto-gain, moving a
    slider, clicking the custom button) leaves the preset name ['custom']
    and every other field equal to the popup's control, except
    [limiterThreshold], which the popup never sends. *)
Theorem popup_push_makes_custom
        (dom : Dom.t) (g : Gesture) (now : R) (st : State) :
  pushes g ->
  settings (step (Message now (popupMessage dom g)) st)
  = {| enabled := Dom.enabled dom; preset := "custom";
       autoGain := Dom.autoGain dom; targetLevel := Dom.targetLevel dom;
       threshold := Dom.threshold dom; ratio := Dom.ratio dom;
       knee := Dom.knee dom; attack := Dom.attack dom;
       release := Dom.release dom; makeupGain := Dom.makeupGain dom;
       preGain := Dom.preGain dom;
       limiterThreshold := limiterThreshold (settings st) |}.
Proof.
  intros P. rewrite step_settings.
  destruct g as [| | |name|]; cbn in P; try contradiction;
    try subst name; reflexivity.
Qed.

(** X12, an instance: with the heavy preset active and the page showing
    its values, toggling Auto-gain (to the value it has) makes the preset
    custom. *)
Lemma popup_push_makes_custom_witness :
  preset (settings (step (Message 0 (popupMessage heavy_page ToggleAutoGain))
                         (with_settings
                            (assign (assign DEFAULT_SETTINGS PRESET_heavy)
                                    (preset_choice "heavy"))
                            initial)))
  = "custom".
Proof.
  rewrite (popup_push_makes_custom heavy_page ToggleAutoGain 0 _ I).
  reflexivity.
Defined.

(** X13.  For all numeric readings the bars [updateMeters] draws stay in
    their tracks: the three level bars are between 0 and 100 percent wide;
    the auto-gain bar is at most 50 wide, lies within 0..100 and always
    touches the centre, to its right for a gain of 0 or more and to its
    left for a negative one.  Inside their ranges the widths are linear:
    [(level + 60) / 60 * 100] and [|gain| / 24 * 50]. *)
Theorem meter_bars_stay_in_track (i o r ag : R) :
  0 <= inWidth (updateMeters i o r ag) <= 100 /\
  0 <= outWidth (updateMeters i o r ag) <= 100 /\
  0 <= grWidth (updateMeters i o r ag) <= 100 /\
  0 <= agWidth (updateMeters i o r ag) <= 50 /\
  0 <= agLeft (updateMeters i o r ag) /\
  agLeft (updateMeters i o r ag) + agWidth (updateMeters i o r ag) <= 100 /\
  (0 <= ag -> agLeft (updateMeters i o r ag) = 50) /\
  (ag < 0 ->
   agLeft (updateMeters i o r ag) + agWidth (updateMeters i o r ag) = 50) /\
  (-60 <= i <= 0 -> inWidth (updateMeters i o r ag) = (i + 60) / 60 * 100) /\
  (-24 <= ag <= 24 ->
   agWidth (updateMeters i o r ag) = Rabs ag / 24 * 50).
Proof.
  assert (P : forall x, 0 <= Rmax 0 (Rmin 100 x) <= 100).
  { intros x. split; [apply Rmax_l | apply Rmax_lub; [lra | apply Rmin_l]]. }
  assert (L : forall x, 0 <= x <= 100 -> Rmax 0 (Rmin 100 x) = x).
  { intros x Hx. rewrite Rmin_right by lra. apply Rmax_right. lra. }
  pose proof (clamp_bounds ag) as B.
  assert (Sg : (0 <= ag -> 0 <= Rmax (-24) (Rmin 24 ag)) /\
               (ag < 0 -> Rmax (-24) (Rmin 24 ag) < 0) /\
               (-24 <= ag <= 24 -> Rmax (-24) (Rmin 24 ag) = ag)).
  { unfold Rmax, Rmin.
    destruct (Rle_dec 24 ag); destruct (Rle_dec (-24) _);
      repeat split; intros; lra. }
  destruct Sg as (S1 & S2 & S3).
  unfold updateMeters.
  set (a := Rmax (-24) (Rmin 24 ag)) in *.
  assert (W : 0 <= Rabs a / 24 * 50 <= 50).
  { unfold Rabs. destruct (Rcase_abs a); lra. }
  assert (Ab : -24 <= ag <= 24 -> Rabs a = Rabs ag)
    by (intros H; rewrite (S3 H); reflexivity).
  destruct (Rle_dec 0 a) as [Pos|Neg];
    cbn [inWidth outWidth grWidth agLeft agWidth];
    (split; [apply P|]); (split; [apply P|]); (split; [apply P|]);
    (split; [exact W|]).
  - split; [lra|]. split; [lra|]. split; [reflexivity|].
    split; [intros H; apply S2 in H; lra|].
    split; [intros H; apply L; lra|].
    intros H. rewrite (Ab H). reflexivity.
  - assert (Hw : Rabs a / 24 * 50 <= 50) by lra.
    split; [lra|]. split; [lra|].
    split; [intros H; apply S1 in H; lra|].
    split; [intros _; lra|].
    split; [intros H; apply L; lra|].
    intros H. rewrite (Ab H). reflexivity.
Qed.

(** X13, an instance: a gain of -12 dB draws the bar from 25 to 50. *)
Lemma meter_bars_stay_in_track_witness :
  agLeft (updateMeters (-20) (-14) (-3) (-12))
  + agWidth (updateMeters (-20) (-14) (-3) (-12)) = 50 /\
  agWidth (updateMeters (-20) (-14) (-3) (-12)) = Rabs (-12) / 24 * 50.
Proof.
  destruct (meter_bars_stay_in_track (-20) (-14) (-3) (-12))
    as (_ & _ & _ & _ & _ & _ & _ & H8 & _ & H10).
  split; [apply H8; lra | apply H10; lra].
Defined.

(** X14.  The settings the service worker stores at installation are the
    content script's defaults: after an install, whatever the store held
    before, [loadSettings] yields [DEFAULT_SETTINGS]; for any other reason
    (an update, say) the listener leaves the store as it is. *)
Theorem install_stores_the_defaults
        (reason : string) (stored : option Obj.t) (st : State) :
  settings (loadSettings (onInstalled "install" stored) st)
  = DEFAULT_SETTINGS /\
  (reason <> "install" -> onInstalled reason stored = stored).
Proof.
  split; [reflexivity|].
  intros H. unfold onInstalled.
  destruct (String.eqb_spec reason "install"); [contradiction | reflexivity].
Qed.

(** X14, an instance: an update keeps what the user stored. *)
Lemma install_stores_the_defaults_witness :
  onInstalled "update" (Some (only_enabled false))
  = Some (only_enabled false).
Proof.
  apply (install_stores_the_defaults "update" (Some (only_enabled false))
           initial).
  discriminate.
Defined.

(* ------------------------------------------------------------------ *)
(** ** The controller under any constant input, and under silence *)

Section AnyConstantInput.

Variables (now : nat -> R) (inBuf outBuf : nat -> list R) (red : nat -> R).
Variable st : State.
Variable d : R.

Hypothesis has_ctx : is_some (audioCtx st) = true.
Hypothesis has_nodes : is_some (nodes st) = true.
Hypothesis is_enabled : enabled (settings st) = true.
Hypothesis is_auto : autoGain (settings st) = true.
Hypothesis starts_at_zero : autoGainValue st = 0.
Hypothesis starts_empty : rmsHistory st = [].
Hypothesis constant_input :
  forall i, 0.0005 < calcRMS (inBuf i) /\
            meter (inBuf i) = targetLevel (settings st) - d.

Lemma clamp_step (q : R) :
  0 < q <= 1 ->
  Rmax (-24)
    (Rmin 24
       (Rmax (-24) (Rmin 24 (d * (1 - q))) +
        (d - Rmax (-24) (Rmin 24 (d * (1 - q)))) * 0.08))
  = Rmax (-24) (Rmin 24 (d * (1 - 0.92 * q))).
Proof.
  intros [Q0 Q1].
  set (p := d * q).
  assert (Hp : (0 <= d -> 0 <= p <= d) /\ (d <= 0 -> d <= p <= 0))
    by (unfold p; split; intros; nra).
  replace (d * (1 - q)) with (d - p) by (unfold p; lra).
  replace (d * (1 - 0.92 * q)) with (d - 0.92 * p) by (unfold p; lra).
  destruct Hp as [Hp Hn].
  assert (Hd : (0 <= d /\ 0 <= p <= d) \/ (d <= 0 /\ d <= p <= 0)).
  { destruct (Rle_dec 0 d) as [D|D]; [left | right]; (split; [lra|]);
      [apply Hp | apply Hn]; lra. }
  destruct (Rle_dec (d - p) 24) as [Hi|Hi].
  - destruct (Rle_dec (-24) (d - p)) as [Lo|Lo].
    + rewrite (Rmin_right 24 (d - p)) by lra.
      rewrite (Rmax_right (-24) (d - p)) by lra.
      replace (d - p + (d - (d - p)) * 0.08) with (d - 0.92 * p) by lra.
      reflexivity.
    + rewrite (Rmin_right 24 (d - p)) by lra.
      rewrite (Rmax_left (-24) (d - p)) by lra.
      rewrite (Rmin_right 24 (-24 + (d - -24) * 0.08)) by lra.
      rewrite (Rmax_left (-24) (-24 + (d - -24) * 0.08)) by lra.
      rewrite (Rmin_right 24 (d - 0.92 * p)) by lra.
      rewrite (Rmax_left (-24) (d - 0.92 * p)) by lra.
      reflexivity.
  - rewrite (Rmin_left 24 (d - p)) by lra.
    rewrite (Rmax_right (-24) 24) by lra.
    rewrite (Rmin_left 24 (24 + (d - 24) * 0.08)) by lra.
    rewrite (Rmax_right (-24) 24) by lra.
    rewrite (Rmin_left 24 (d - 0.92 * p)) by lra.
    rewrite (Rmax_right (-24) 24) by lra.
    reflexivity.
Qed.

Lemma any_constant_input_state (n : nat) :
  settings (ticks n now inBuf outBuf red st) = settings st /\
  audioCtx (ticks n now inBuf outBuf red st) = audioCtx st /\
  nodes (ticks n now inBuf outBuf red st) = nodes st /\
  Forall (fun x => x = targetLevel (settings st) - d)
         (rmsHistory (ticks n now inBuf outBuf red st)) /\
  autoGainValue (ticks n now inBuf outBuf red st)
  = Rmax (-24) (Rmin 24 (d * (1 - 0.92 ^ n))).
Proof.
  induction n as [|n (Hs & Hc & Hn & F & G)].
  - cbn. rewrite starts_at_zero, starts_empty.
    repeat split; try reflexivity; [constructor|].
    replace (d * (1 - 1)) with 0 by lra.
    rewrite Rmin_right by lra. rewrite Rmax_right by lra. reflexivity.
  - cbn [ticks].
    destruct (tick_vars (now n) (inBuf n) (outBuf n) (red n)
                (ticks n now inBuf outBuf red st)) as (S1 & C1 & N1 & _).
    destruct (constant_input n) as [Loud M].
    destruct (tick_active (now n) (inBuf n) (outBuf n) (red n)
                (ticks n now inBuf outBuf red st)) as [Hh Hg];
      try congruence.
    rewrite Hs in Hg. rewrite M in Hh, Hg.
    destruct (push_history_constant _ _ F) as [F' NE].
    repeat split; try congruence.
    rewrite Hg, average_mean, (mean_constant _ _ F' NE), G.
    replace (targetLevel (settings st) - (targetLevel (settings st) - d))
      with d by lra.
    rewrite (clamp_step (0.92 ^ n) (pow_092_bounds n)).
    simpl pow. reflexivity.
Qed.

End AnyConstantInput.

(** X15.  From [autoGainValue = 0] and an empty window, ticks whose input
    is above the silence floor and always reads [targetLevel - d] dB give
    [autoGainValue = clamp (d * (1 - 0.92 ^ n))] after [n] ticks, for every
    correction [d], boost or cut.  Within the clamp the distance to [d]
    shrinks by the factor 0.92 a tick; a correction beyond 24 dB is
    reached as far as the clamp allows: the value arrives at 24 (or -24)
    exactly and stays there. *)
Theorem constant_input_tracks_correction
        (now : nat -> R) (inBuf outBuf : nat -> list R) (red : nat -> R)
        (st : State) (d : R) :
  is_some (audioCtx st) = true -> is_some (nodes st) = true ->
  enabled (settings st) = true -> autoGain (settings st) = true ->
  autoGainValue st = 0 -> rmsHistory st = [] ->
  (forall i, 0.0005 < calcRMS (inBuf i) /\
             meter (inBuf i) = targetLevel (settings st) - d) ->
  (forall n, autoGainValue (ticks n now inBuf outBuf red st)
             = Rmax (-24) (Rmin 24 (d * (1 - 0.92 ^ n)))) /\
  (-24 <= d <= 24 ->
   forall n, autoGainValue (ticks n now inBuf outBuf red st) - d
             = - d * 0.92 ^ n) /\
  (24 < d ->
   exists N, forall n, (N <= n)%nat ->
     autoGainValue (ticks n now inBuf outBuf red st) = 24) /\
  (d < -24 ->
   exists N, forall n, (N <= n)%nat ->
     autoGainValue (ticks n now inBuf outBuf red st) = -24).
Proof.
  intros H1 H2 H3 H4 H5 H6 H7.
  assert (G : forall n, autoGainValue (ticks n now inBuf outBuf red st)
                        = Rmax (-24) (Rmin 24 (d * (1 - 0.92 ^ n)))).
  { intros n.
    apply (any_constant_input_state now inBuf outBuf red st d
             H1 H2 H3 H4 H5 H6 H7). }
  split; [exact G|]. split; [|split].
  - intros Hd n. rewrite G.
    pose proof (pow_092_bounds n) as [P0 P1].
    assert (-24 <= d * (1 - 0.92 ^ n) <= 24) by (split; nra).
    rewrite Rmin_right by lra. rewrite Rmax_right by lra. lra.
  - intros Hd.
    destruct (pow_lt_1_zero 0.92) with (y := (d - 24) / d) as [N HN].
    + rewrite Rabs_pos_eq; lra.
    + apply Rdiv_lt_0_compat; lra.
    + exists N. intros n Hn. rewrite G. specialize (HN n Hn).
      pose proof (pow_092_bounds n) as [P0 P1].
      rewrite Rabs_pos_eq in HN by lra.
      assert (K : 0.92 ^ n * d < d - 24).
      { apply (Rmult_lt_compat_r d) in HN; [|lra].
        replace ((d - 24) / d * d) with (d - 24) in HN by (field; lra).
        exact HN. }
      rewrite Rmin_left by lra. apply Rmax_right. lra.
  - intros Hd.
    destruct (pow_lt_1_zero 0.92) with (y := (d + 24) / d) as [N HN].
    + rewrite Rabs_pos_eq; lra.
    + replace ((d + 24) / d) with ((- d - 24) / - d) by (field; lra).
      apply Rdiv_lt_0_compat; lra.
    + exists N. intros n Hn. rewrite G. specialize (HN n Hn).
      pose proof (pow_092_bounds n) as [P0 P1].
      rewrite Rabs_pos_eq in HN by lra.
      assert (K : d + 24 < 0.92 ^ n * d).
      { apply (Rmult_lt_compat_r (- d)) in HN; [|lra].
        replace ((d + 24) / d * - d) with (- (d + 24)) in HN by (field; lra).
        lra. }
      rewrite Rmin_right by lra. apply Rmax_left. lra.
Qed.

(** X15, an instance: after the first bind (target [-14] dB) every block
    reads [-4] dB, a cut of 10 dB. *)
Lemma constant_input_tracks_correction_witness :
  autoGainValue
    (ticks 3 (fun _ => 0) (fun _ => block (dBtoLinear (-4)))
           (fun _ => block 0) (fun _ => 0) (run first_bind initial))
  - -10 = - -10 * 0.92 ^ 3.
Proof.
  assert (P : 0 <= dBtoLinear (-4)) by (apply Rlt_le, dBtoLinear_pos).
  assert (H : forall i : nat,
             0.0005 < calcRMS (block (dBtoLinear (-4))) /\
             meter (block (dBtoLinear (-4)))
             = targetLevel (settings (run first_bind initial)) - -10).
  { intros _. unfold meter. rewrite calcRMS_rms, (rms_block _ P). split.
    - apply dBtoLinear_above_floor. lra.
    - rewrite linearToDB_dBtoLinear.
      change (targetLevel (settings (run first_bind initial))) with (-14).
      lra. }
  assert (D : -24 <= -10 <= 24) by lra.
  exact (proj1 (proj2 (constant_input_tracks_correction
                         (fun _ => 0) (fun _ => block (dBtoLinear (-4)))
                         (fun _ => block 0) (fun _ => 0)
                         (run first_bind initial) (-10)
                         eq_refl eq_refl eq_refl eq_refl eq_refl eq_refl H))
               D 3%nat).
Defined.

(** X16.  While processing is disabled, or auto-gain is off, or every
    block is at or below the silence floor, any number of ticks leaves the
    running auto-gain value, the window and the settings as they were. *)
Theorem idle_ticks_freeze_controller
        (n : nat) (now : nat -> R) (inBuf outBuf : nat -> list R)
        (red : nat -> R) (st : State) :
  enabled (settings st) = false \/ autoGain (settings st) = false \/
  (forall i, calcRMS (inBuf i) <= 0.0005) ->
  autoGainValue (ticks n now inBuf outBuf red st) = autoGainValue st /\
  rmsHistory (ticks n now inBuf outBuf red st) = rmsHistory st /\
  settings (ticks n now inBuf outBuf red st) = settings st.
Proof.
  intros H. induction n as [|n (G & W & S)]; [repeat split; reflexivity|].
  cbn [ticks].
  destruct (tick_vars (now n) (inBuf n) (outBuf n) (red n)
              (ticks n now inBuf outBuf red st)) as (S1 & _).
  destruct (tick_idle (now n) (inBuf n) (outBuf n) (red n)
              (ticks n now inBuf outBuf red st)) as [W1 G1].
  - rewrite S. intros (E & A & L).
    destruct H as [H | [H | H]]; [congruence | congruence |].
    specialize (H n). lra.
  - repeat split; congruence.
Qed.

(** X16, an instance: five ticks of digital silence after the first
    bind. *)
Lemma idle_ticks_freeze_controller_witness :
  autoGainValue
    (ticks 5 (fun _ => 0) (fun _ => block 0) (fun _ => block 0)
           (fun _ => 0) (run first_bind initial))
  = autoGainValue (run first_bind initial).
Proof.
  apply (idle_ticks_freeze_controller 5 (fun _ => 0) (fun _ => block 0)
           (fun _ => block 0) (fun _ => 0) (run first_bind initial)).
  right. right. intros _.
  rewrite calcRMS_rms, rms_block; lra.
Defined.
